(** * Collaborative canvas: the operation log, the room registry and the
      session coordinator, embedded from [server/drawing-state.js],
      [server/rooms.js] and [server/server.js].

    Conventions of the embedding.
    - A JavaScript object field that may be absent is an [option]; [None] is
      [undefined].  Strings compared with [===] are compared with [=].
    - Numbers (coordinates, widths, radii, clock readings) are integers [Z].
      The test [Math.sqrt(dx^2 + dy^2) > r] is decided exactly there: it
      holds when [r] is negative or when [r^2 < dx^2 + dy^2].  Logging and
      folding as the code computes them, on IEEE doubles, are in [Float64].
    - [Date.now()] is an input of the operation that reads it.  The two
      readings inside one [addOperation] call are one value.
    - An operation id [op_<now>_<counter>] is the pair [(now, counter)].
    - A method that can throw an uncaught [TypeError] returns an [option];
      [None] is the throw, which ends the server process.
    - A [Map] is a [gmap], a [Set] a [gset]; iteration order of a [Map] is
      not modelled. *)

From stdpp Require Import gmap strings list fin_maps.
From Stdlib Require Floats.SpecFloat Floats.FloatOps.
From Stdlib Require Import Floats.PrimFloat ZArith Lia RIneq R_sqrt.

Local Open Scope Z_scope.

(** ** Data model *)

Record Point := mkPoint { x : Z; y : Z }.

Global Instance Point_eq_dec : EqDecision Point.
Proof. solve_decision. Defined.

Definition OpId : Type := Z * Z.

(** A stroke of the derived state: [{id, userId, tool, color, lineWidth, points}]. *)
Module Stroke.
Record t := mk {
  id : option string;
  userId : option string;
  tool : option string;
  color : option string;
  lineWidth : option Z;
  points : list Point
}.

Definition withPoints (s : t) (ps : list Point) : t :=
  mk (id s) (userId s) (tool s) (color s) (lineWidth s) ps.
End Stroke.

Global Instance Stroke_eq_dec : EqDecision Stroke.t.
Proof. solve_decision. Defined.

(** What a caller hands to [addOperation]: the operation before it gets its
    id and timestamp. *)
Module OpData.
Record t := mk {
  type : string;
  userId : option string;
  strokeId : option string;
  tool : option string;
  color : option string;
  lineWidth : option Z;
  point : option Point;
  radius : option Z
}.
End OpData.

(** A logged operation: [{id, ...operation, timestamp}] plus the undo markers. *)
Module Operation.
Record t := mk {
  id : OpId;
  type : string;
  userId : option string;
  strokeId : option string;
  tool : option string;
  color : option string;
  lineWidth : option Z;
  point : option Point;
  radius : option Z;
  timestamp : Z;
  undone : bool;
  undoneBy : option string;
  undoneAt : option Z
}.

(** [{id: operationId, ...operation, timestamp: Date.now()}] *)
Definition withId (oid : OpId) (o : OpData.t) (now : Z) : t :=
  mk oid (OpData.type o) (OpData.userId o) (OpData.strokeId o)
     (OpData.tool o) (OpData.color o) (OpData.lineWidth o)
     (OpData.point o) (OpData.radius o) now false None None.

(** [op.undone = true; op.undoneBy = userId; op.undoneAt = Date.now()] *)
Definition markUndone (o : t) (by_ : string) (now : Z) : t :=
  mk (id o) (type o) (userId o) (strokeId o) (tool o) (color o)
     (lineWidth o) (point o) (radius o) (timestamp o)
     true (Some by_) (Some now).

(** [delete op.undone; delete op.undoneBy; delete op.undoneAt] *)
Definition unmark (o : t) : t :=
  mk (id o) (type o) (userId o) (strokeId o) (tool o) (color o)
     (lineWidth o) (point o) (radius o) (timestamp o)
     false None None.
End Operation.

Global Instance Operation_eq_dec : EqDecision Operation.t.
Proof. solve_decision. Defined.

(** Truthiness of a string field, as [if (operation.userId)] tests it. *)
Definition truthyStr (s : option string) : bool :=
  match s with
  | Some v => negb (bool_decide (v = ""%string))
  | None => false
  end.

(** [a || d] on a number field. *)
Definition orNum (a : option Z) (d : Z) : Z :=
  match a with
  | Some v => if v =? 0 then d else v
  | None => d
  end.

(** [a.slice(0, e)]: a negative [e] counts from the end. *)
Definition slice0 {A : Type} (e : Z) (a : list A) : list A :=
  take (Z.to_nat (if e <? 0 then Z.of_nat (length a) + e else e)) a.

(** [a || d] on a string field. *)
Definition orStr (a : option string) (d : string) : string :=
  match a with
  | Some v => if bool_decide (v = ""%string) then d else v
  | None => d
  end.

(** ** The operation log: class [DrawingState] *)

Module DrawingState.

Record t := mk {
  operationHistory : list Operation.t;
  currentHistoryIndex : Z;
  strokes : list Stroke.t;
  userOperations : gmap string (list OpId);
  operationIdCounter : Z
}.

(** [constructor()] *)
Definition new : t := mk [] (-1) [] ∅ 0.

(** [generateOperationId()]: the id and the state with the counter moved. *)
Definition generateOperationId (now : Z) (s : t) : OpId * t :=
  let c := operationIdCounter s + 1 in
  ((now, c),
   mk (operationHistory s) (currentHistoryIndex s) (strokes s)
      (userOperations s) c).

(** *** Folding one operation into the strokes *)

(** [distance > eraseRadius] for the distance between [p] and [e]. *)
Definition fartherThan (p e : Point) (r : Z) : bool :=
  (r <? 0) || (r * r <? (x p - x e) * (x p - x e) + (y p - y e) * (y p - y e)).

(** The callback of [stroke.points.filter]: reading [erasePoint.x] of an
    absent erase point throws. *)
Definition keepPoint (erasePoint : option Point) (eraseRadius : Z)
    (p : Point) : option bool :=
  match erasePoint with
  | Some e => Some (fartherThan p e eraseRadius)
  | None => None
  end.

Fixpoint filterPoints (erasePoint : option Point) (eraseRadius : Z)
    (ps : list Point) : option (list Point) :=
  match ps with
  | [] => Some []
  | p :: rest =>
      match keepPoint erasePoint eraseRadius p with
      | None => None
      | Some b =>
          match filterPoints erasePoint eraseRadius rest with
          | None => None
          | Some fp => Some (if b then p :: fp else fp)
          end
      end
  end.

(** The callback of [this.strokes.map] in the erase branch: [Some None] is
    the returned [null]. *)
Definition eraseStroke (erasePoint : option Point) (eraseRadius : Z)
    (s : Stroke.t) : option (option Stroke.t) :=
  if bool_decide (Stroke.tool s = Some "eraser"%string) then Some (Some s)
  else
    match filterPoints erasePoint eraseRadius (Stroke.points s) with
    | None => None
    | Some filteredPoints =>
        if bool_decide (length filteredPoints = 0%nat) then Some None
        else Some (Some (Stroke.withPoints s filteredPoints))
    end.

Fixpoint mapErase (erasePoint : option Point) (eraseRadius : Z)
    (ss : list Stroke.t) : option (list (option Stroke.t)) :=
  match ss with
  | [] => Some []
  | s :: rest =>
      match eraseStroke erasePoint eraseRadius s with
      | None => None
      | Some r =>
          match mapErase erasePoint eraseRadius rest with
          | None => None
          | Some rs => Some (r :: rs)
          end
      end
  end.

(** [.filter(stroke => stroke !== null)] *)
Fixpoint dropNull (rs : list (option Stroke.t)) : list Stroke.t :=
  match rs with
  | [] => []
  | Some s :: rest => s :: dropNull rest
  | None :: rest => dropNull rest
  end.

Definition sameId (sid : option string) (s : Stroke.t) : bool :=
  bool_decide (Stroke.id s = sid).

(** [stroke.points.push(operation.point)] when the point is present. *)
Definition pushPoint (pt : option Point) (s : Stroke.t) : Stroke.t :=
  match pt with
  | Some p => Stroke.withPoints s (Stroke.points s ++ [p])
  | None => s
  end.

(** The stroke object found by [this.strokes.find] is updated in place:
    the first stroke with the id changes, the others stay. *)
Fixpoint updateFound (sid : option string) (pt : option Point)
    (ss : list Stroke.t) : list Stroke.t :=
  match ss with
  | [] => []
  | s :: rest =>
      if sameId sid s then pushPoint pt s :: rest
      else s :: updateFound sid pt rest
  end.

Definition newStroke (o : Operation.t) : Stroke.t :=
  Stroke.mk (Operation.strokeId o) (Operation.userId o) (Operation.tool o)
            (Operation.color o) (Operation.lineWidth o) [].

(** [applyOperation(operation)] on [this.strokes], the only field it
    touches. *)
Definition applyOperation (ss : list Stroke.t) (o : Operation.t)
    : option (list Stroke.t) :=
  if bool_decide (Operation.type o = "draw"%string) then
    match List.find (sameId (Operation.strokeId o)) ss with
    | Some _ => Some (updateFound (Operation.strokeId o) (Operation.point o) ss)
    | None => Some (ss ++ [pushPoint (Operation.point o) (newStroke o)])
    end
  else if bool_decide (Operation.type o = "erase"%string) then
    let erasePoint := Operation.point o in
    let eraseRadius := orNum (Operation.radius o) 20 in
    match mapErase erasePoint eraseRadius ss with
    | None => None
    | Some rs => Some (dropNull rs)
    end
  else if bool_decide (Operation.type o = "clear"%string) then Some []
  else Some ss.

(** The loop of [rebuildState] over the history. *)
Fixpoint replay (ops : list Operation.t) (ss : list Stroke.t)
    : option (list Stroke.t) :=
  match ops with
  | [] => Some ss
  | o :: rest =>
      if Operation.undone o then replay rest ss
      else
        match applyOperation ss o with
        | None => None
        | Some ss' => replay rest ss'
        end
  end.

(** [rebuildState()] *)
Definition rebuildState (s : t) : option t :=
  match replay (operationHistory s) [] with
  | None => None
  | Some ss =>
      Some (mk (operationHistory s) (currentHistoryIndex s) ss ∅
               (operationIdCounter s))
  end.

(** [this.userOperations.get(userId) || []] *)
Definition userOpsOf (s : t) (userId : string) : list OpId :=
  default [] (userOperations s !! userId).

(** [addOperation(operation)] *)
Definition addOperation (o : OpData.t) (now : Z) (s : t) : option (OpId * t) :=
  let history :=
    if currentHistoryIndex s <? Z.of_nat (length (operationHistory s)) - 1
    then slice0 (currentHistoryIndex s + 1) (operationHistory s)
    else operationHistory s in
  let '(operationId, s1) := generateOperationId now s in
  let operationWithId := Operation.withId operationId o now in
  let history' := history ++ [operationWithId] in
  let index' := currentHistoryIndex s + 1 in
  match applyOperation (strokes s) operationWithId with
  | None => None
  | Some ss =>
      let users :=
        match OpData.userId o with
        | Some u =>
            if truthyStr (Some u)
            then <[u := userOpsOf s u ++ [operationId]]> (userOperations s)
            else userOperations s
        | None => userOperations s
        end in
      Some (operationId, mk history' index' ss users (operationIdCounter s1))
  end.

(** The backward scans of [undo] and [redo]: indices [n-1] down to [0];
    the first hit is returned with its index. *)
Fixpoint scanBack (P : Operation.t → bool) (l : list Operation.t) (n : nat)
    : option (nat * Operation.t) :=
  match n with
  | O => None
  | S i =>
      match l !! i with
      | Some o => if P o then Some (i, o) else scanBack P l i
      | None => scanBack P l i
      end
  end.

Definition undoable (userOps : list OpId) (o : Operation.t) : bool :=
  bool_decide (Operation.id o ∈ userOps) && negb (Operation.undone o).

(** [undo(userId)]: the returned operation, [None] for [null]. *)
Definition undo (userId : string) (now : Z) (s : t)
    : option (option Operation.t * t) :=
  let userOps := userOpsOf s userId in
  if bool_decide (length userOps = 0%nat) then Some (None, s)
  else
    match scanBack (undoable userOps) (operationHistory s)
                   (length (operationHistory s)) with
    | None => Some (None, s)
    | Some (i, o) =>
        let o' := Operation.markUndone o userId now in
        let s1 := mk (<[i := o']> (operationHistory s)) (currentHistoryIndex s)
                     (strokes s) (userOperations s) (operationIdCounter s) in
        match rebuildState s1 with
        | None => None
        | Some s2 => Some (Some o', s2)
        end
    end.

Definition redoable (userId : string) (o : Operation.t) : bool :=
  Operation.undone o
  && bool_decide (Operation.userId o = Some userId)
  && bool_decide (Operation.undoneBy o = Some userId).

(** [redo(userId)] *)
Definition redo (userId : string) (s : t) : option (option Operation.t * t) :=
  match scanBack (redoable userId) (operationHistory s)
                 (length (operationHistory s)) with
  | None => Some (None, s)
  | Some (i, o) =>
      let o' := Operation.unmark o in
      let s1 := mk (<[i := o']> (operationHistory s)) (currentHistoryIndex s)
                   (strokes s) (userOperations s) (operationIdCounter s) in
      match rebuildState s1 with
      | None => None
      | Some s2 => Some (Some o', s2)
      end
  end.

Definition getState (s : t) : list Stroke.t := strokes s.

Definition getHistory (s : t) : list Operation.t := operationHistory s.

(** [getUserOperations(userId)] *)
Definition getUserOperations (userId : string) (s : t) : list Operation.t :=
  List.filter (λ o, bool_decide (Operation.id o ∈ userOpsOf s userId))
              (operationHistory s).

(** [clear()] *)
Definition clear (s : t) : t := mk [] (-1) [] ∅ (operationIdCounter s).

(** The object of [exportState()] and of a [load-canvas] message:
    [{strokes, operationHistory, timestamp}], the two lists possibly absent
    on the way in. *)
Record Snapshot := mkSnapshot {
  snapStrokes : option (list Stroke.t);
  snapHistory : option (list Operation.t);
  snapTimestamp : Z
}.

(** [exportState()] *)
Definition exportState (now : Z) (s : t) : Snapshot :=
  mkSnapshot (Some (strokes s)) (Some (operationHistory s)) now.

(** The loop of [importState] that fills [userOperations]. *)
Fixpoint indexUsers (ops : list Operation.t) (m : gmap string (list OpId))
    : gmap string (list OpId) :=
  match ops with
  | [] => m
  | o :: rest =>
      match Operation.userId o with
      | Some u =>
          if truthyStr (Some u) && negb (Operation.undone o)
          then indexUsers rest (<[u := default [] (m !! u) ++ [Operation.id o]]> m)
          else indexUsers rest m
      | None => indexUsers rest m
      end
  end.

(** [importState(state)] *)
Definition importState (state : Snapshot) (s : t) : t :=
  let ss := default [] (snapStrokes state) in
  let history := default [] (snapHistory state) in
  mk history (Z.of_nat (length history) - 1) ss (indexUsers history ∅)
     (operationIdCounter s).

(** The methods that change a log, as a command language, to speak of the
    states a log reaches from [new]. *)
Inductive Cmd :=
| Add (o : OpData.t) (now : Z)
| Undo (userId : string) (now : Z)
| Redo (userId : string)
| Clear.

Definition exec (c : Cmd) (s : t) : option t :=
  match c with
  | Add o now => snd <$> addOperation o now s
  | Undo u now => snd <$> undo u now s
  | Redo u => snd <$> redo u s
  | Clear => Some (clear s)
  end.

Fixpoint run (cs : list Cmd) (s : t) : option t :=
  match cs with
  | [] => Some s
  | c :: rest =>
      match exec c s with
      | None => None
      | Some s' => run rest s'
      end
  end.

(** [d] is what a drawing handler logs for user [U]: a [draw] operation on
    the stroke [sid] that carries the point [p]. *)
Definition drawBy (U : string) (sid : option string) (p : Point)
    (d : OpData.t) : Prop :=
  OpData.type d = "draw"%string ∧ OpData.userId d = Some U ∧
  OpData.strokeId d = sid ∧ OpData.point d = Some p.

(** *** A small log to run the methods on *)

Definition exampleUser : string := "user_1".

Definition exampleDraw (sid : string) (px py : Z) : OpData.t :=
  OpData.mk "draw" (Some exampleUser) (Some sid) (Some "brush"%string)
            (Some "#FF6B6B"%string) (Some 5) (Some (mkPoint px py)) None.

(** Three points of one stroke, as [draw-start] and two [draw-move]s log
    them. *)
Definition exampleCmds : list Cmd :=
  [Add (exampleDraw "s1" 0 0) 100; Add (exampleDraw "s1" 5 5) 101;
   Add (exampleDraw "s1" 5 5) 102].

Definition exampleLog : t := default new (run exampleCmds new).

(** A second user draws one point, the first user draws the three points,
    then the second user undoes. *)
Definition exampleOther : string := "user_2".

Definition exampleOtherDraw : OpData.t :=
  OpData.mk "draw" (Some exampleOther) (Some "s2"%string) (Some "brush"%string)
            (Some "#4ECDC4"%string) (Some 5) (Some (mkPoint 9 9)) None.

Definition exampleInterleaved : list Cmd :=
  [Add exampleOtherDraw 90; Add (exampleDraw "s1" 0 0) 100;
   Add (exampleDraw "s1" 5 5) 101; Add (exampleDraw "s1" 5 5) 102;
   Undo exampleOther 150].

(** An erase gesture at [(5, 5)] with radius 3. *)
Definition exampleErase : OpData.t :=
  OpData.mk "erase" (Some exampleUser) None None None None
            (Some (mkPoint 5 5)) (Some 3).

(** *** What holds of every log reached from [new] *)

(** The ids of the operations of [l] that [addOperation] files under the
    user [u]; nothing is filed under the empty string. *)
Definition idsOf (u : string) (l : list Operation.t) : list OpId :=
  if bool_decide (u = ""%string) then []
  else Operation.id <$> filter (λ o, Operation.userId o = Some u) l.

(** The history index is in step with the history, the strokes are the
    replay of the history, and the per-user index covers the operations
    logged since the last rebuild. *)
Record Inv (s : t) : Prop := mkInv {
  inv_index :
    currentHistoryIndex s = Z.of_nat (length (operationHistory s)) - 1;
  inv_strokes : replay (operationHistory s) [] = Some (strokes s);
  inv_users :
    ∃ k : nat, (k ≤ length (operationHistory s))%nat ∧
      ∀ u, userOpsOf s u = idsOf u (drop k (operationHistory s))
}.

(** The ids of the history are pairwise different, and none has a counter
    part above the counter of the log. *)
Definition IdsFresh (s : t) : Prop :=
  NoDup (Operation.id <$> operationHistory s) ∧
  ∀ o, o ∈ operationHistory s → (Operation.id o).2 ≤ operationIdCounter s.

(** What an erase at [e] with radius [r] leaves of one stroke: an eraser
    stroke as it is, another stroke with its points farther than [r] from
    [e], and nothing of a stroke without such points. *)
Definition erasedBy (e : Point) (r : Z) (st : Stroke.t) : option Stroke.t :=
  if bool_decide (Stroke.tool st = Some "eraser"%string) then Some st
  else match List.filter (λ p, fartherThan p e r) (Stroke.points st) with
       | [] => None
       | fp => Some (Stroke.withPoints st fp)
       end.

End DrawingState.

(** ** The room registry: class [RoomManager]

    Each room holds a reference to its own [DrawingState] object.  The
    objects live in [objects], in the order [new DrawingState()] made them; a
    reference is the index of its object there.  Methods of a room's log
    mutate the object behind the reference. *)

Module RoomManager.

Definition Ref : Type := nat.

Record t := mk {
  objects : list DrawingState.t;
  rooms : gmap string Ref;
  socketToRoom : gmap string string;
  roomUsers : gmap string (gset string)
}.

Definition defaultRoomId : string := "default".

(** [createRoom(roomId)] *)
Definition createRoom (roomId : string) (m : t) : bool * t :=
  match rooms m !! roomId with
  | Some _ => (false, m)
  | None =>
      (true, mk (objects m ++ [DrawingState.new])
                (<[roomId := length (objects m)]> (rooms m))
                (socketToRoom m)
                (<[roomId := ∅]> (roomUsers m)))
  end.

(** [constructor()]: empty maps, then [createRoom(this.defaultRoomId)]. *)
Definition new : t := (createRoom defaultRoomId (mk [] ∅ ∅ ∅)).2.

(** [leaveRoom(socketId)]; the test [if (roomId)] fails for the empty
    string. *)
Definition leaveRoom (socketId : string) (m : t) : t :=
  match socketToRoom m !! socketId with
  | Some roomId =>
      if bool_decide (roomId = ""%string) then m
      else
        let roomUsers' :=
          match roomUsers m !! roomId with
          | Some users => <[roomId := users ∖ {[socketId]}]> (roomUsers m)
          | None => roomUsers m
          end in
        mk (objects m) (rooms m) (delete socketId (socketToRoom m)) roomUsers'
  | None => m
  end.

(** [joinRoom(socketId, roomId)] *)
Definition joinRoom (socketId roomId : string) (m : t) : bool * t :=
  let m1 := leaveRoom socketId m in
  let m2 :=
    match rooms m1 !! roomId with
    | Some _ => m1
    | None => (createRoom roomId m1).2
    end in
  let roomUsers' :=
    match roomUsers m2 !! roomId with
    | Some users => <[roomId := users ∪ {[socketId]}]> (roomUsers m2)
    | None => roomUsers m2
    end in
  (true, mk (objects m2) (rooms m2) (<[socketId := roomId]> (socketToRoom m2))
            roomUsers').

(** [getRoomId(socketId)]: [this.socketToRoom.get(socketId) || this.defaultRoomId] *)
Definition getRoomId (socketId : string) (m : t) : string :=
  orStr (socketToRoom m !! socketId) defaultRoomId.

(** [getRoomState(roomId)]: the reference held by the room; [None] is
    [null]. *)
Definition getRoomState (roomId : string) (m : t) : option Ref :=
  rooms m !! roomId.

(** The object behind a reference. *)
Definition deref (r : Ref) (m : t) : option DrawingState.t := objects m !! r.

(** The log object of a room, as a caller of [getRoomState] sees it. *)
Definition roomLog (roomId : string) (m : t) : option DrawingState.t :=
  match getRoomState roomId m with
  | Some r => deref r m
  | None => None
  end.

(** A method of the object behind [r] ran and left it as [ds]. *)
Definition mutate (r : Ref) (ds : DrawingState.t) (m : t) : t :=
  mk (<[r := ds]> (objects m)) (rooms m) (socketToRoom m) (roomUsers m).

(** [getRoomUsers(roomId)], as the set the array is made from. *)
Definition getRoomUsers (roomId : string) (m : t) : gset string :=
  default ∅ (roomUsers m !! roomId).

(** [getAllRooms()], as the set of keys. *)
Definition getAllRooms (m : t) : gset string := dom (rooms m).

(** [deleteRoom(roomId)] *)
Definition deleteRoom (roomId : string) (m : t) : bool * t :=
  if bool_decide (roomId = defaultRoomId) then (false, m)
  else
    match roomUsers m !! roomId with
    | Some users =>
        if bool_decide (size users = 0%nat)
        then (true, mk (objects m) (delete roomId (rooms m)) (socketToRoom m)
                       (delete roomId (roomUsers m)))
        else (false, m)
    | None => (false, m)
    end.

(** [getRoomInfo(roomId)]: [(id, userCount, strokeCount)]; reading [.strokes]
    of a missing object would throw. *)
Definition getRoomInfo (roomId : string) (m : t)
    : option (option (string * nat * nat)) :=
  match rooms m !! roomId with
  | None => Some None
  | Some r =>
      match deref r m with
      | None => None
      | Some ds =>
          Some (Some (roomId, size (getRoomUsers roomId m),
                      length (DrawingState.strokes ds)))
      end
  end.

(** The registry methods as a command language, to speak of sequences of
    calls. *)
Inductive Call :=
| CreateRoom (roomId : string)
| JoinRoom (socketId roomId : string)
| LeaveRoom (socketId : string)
| DeleteRoom (roomId : string).

Definition call (c : Call) (m : t) : t :=
  match c with
  | CreateRoom r => (createRoom r m).2
  | JoinRoom s r => (joinRoom s r m).2
  | LeaveRoom s => leaveRoom s m
  | DeleteRoom r => (deleteRoom r m).2
  end.

Fixpoint calls (cs : list Call) (m : t) : t :=
  match cs with
  | [] => m
  | c :: rest => calls rest (call c m)
  end.

(** What holds of every registry reached from [new]: the two room maps
    have the same keys, every reference points into [objects], no two rooms
    hold the same reference, and the default room is there. *)
Record WF (m : t) : Prop := mkWF {
  wf_dom : dom (rooms m) = dom (roomUsers m);
  wf_alloc : ∀ r ref, rooms m !! r = Some ref → (ref < length (objects m))%nat;
  wf_own : ∀ r1 r2 ref,
    rooms m !! r1 = Some ref → rooms m !! r2 = Some ref → r1 = r2;
  wf_default : is_Some (rooms m !! defaultRoomId)
}.

(** Every socket of the socket map is in the member set of the room it
    names. *)
Definition Seated (m : t) : Prop :=
  ∀ s r, socketToRoom m !! s = Some r →
         ∃ us, roomUsers m !! r = Some us ∧ s ∈ us.

(** No room id of the socket map is the empty string, and every member of a
    member set is mapped to the room of that set. *)
Definition Exact (m : t) : Prop :=
  (∀ s r, socketToRoom m !! s = Some r → r ≠ ""%string) ∧
  (∀ r us s, roomUsers m !! r = Some us → s ∈ us →
             socketToRoom m !! s = Some r).

(** A call that does not join the room named by the empty string. *)
Definition nonEmptyJoin (c : Call) : Prop :=
  match c with
  | JoinRoom _ r => r ≠ ""%string
  | _ => True
  end.

End RoomManager.

(** ** The session coordinator: the socket handlers of [server.js]

    The handlers are state transformers on the room registry and the user
    table; what they emit is not part of the state and is left out. *)

Module Server.

Record User := mkUser {
  id : string;
  username : string;
  color : string;
  socketId : string
}.

Record t := mk {
  roomManager : RoomManager.t;
  users : gmap string User
}.

Definition new : t := mk RoomManager.new ∅.

(** Payload of [draw-start] and [draw-move]. *)
Record DrawData := mkDrawData {
  strokeId : option string;
  tool : option string;
  dcolor : option string;
  lineWidth : option Z;
  point : option Point
}.

(** Payload of [erase]. *)
Record EraseData := mkEraseData {
  epoint : option Point;
  radius : option Z
}.

(** What the drawing handlers have in hand after their opening lines. *)
Record Session := mkSession {
  user : User;
  roomId : string;
  drawingStateRef : RoomManager.Ref;
  drawingState : DrawingState.t
}.

(** The common opening of the drawing handlers: the user of the socket, the
    id of its room and the room's state; [None] when the handler returns
    early.  A reference handed out by the registry points to an object. *)
Definition resolve (socket : string) (sv : t) : option Session :=
  match users sv !! socket with
  | None => None
  | Some user =>
      let roomId := RoomManager.getRoomId socket (roomManager sv) in
      match RoomManager.getRoomState roomId (roomManager sv) with
      | None => None
      | Some r =>
          match RoomManager.deref r (roomManager sv) with
          | None => None
          | Some ds => Some (mkSession user roomId r ds)
          end
      end
  end.

(** The room's [DrawingState] object is mutated in place. *)
Definition store (ss : Session) (ds : DrawingState.t) (sv : t) : t :=
  mk (RoomManager.mutate (drawingStateRef ss) ds (roomManager sv)) (users sv).

(** The operation built by the [draw-start] handler; [genStrokeId] is the
    freshly generated [stroke_<now>_<random>]. *)
Definition drawStartOperation (user : User) (genStrokeId : string)
    (data : DrawData) : OpData.t :=
  OpData.mk "draw" (Some (id user)) (Some genStrokeId)
    (Some (orStr (tool data) "brush")) (Some (orStr (dcolor data) (color user)))
    (Some (orNum (lineWidth data) 5)) (point data) None.

(** The operation built by the [draw-move] handler. *)
Definition drawMoveOperation (user : User) (data : DrawData) : OpData.t :=
  OpData.mk "draw" (Some (id user)) (strokeId data)
    (Some (orStr (tool data) "brush")) (Some (orStr (dcolor data) (color user)))
    (Some (orNum (lineWidth data) 5)) (point data) None.

(** The operation built by the [erase] handler. *)
Definition eraseOperation (user : User) (data : EraseData) : OpData.t :=
  OpData.mk "erase" (Some (id user)) None None None None (epoint data)
    (Some (orNum (radius data) 20)).

(** The operation built by the [clear] handler. *)
Definition clearOperation (user : User) : OpData.t :=
  OpData.mk "clear" (Some (id user)) None None None None None None.

(** The operation built by the [load-canvas] handler. *)
Definition loadOperation (user : User) : OpData.t :=
  OpData.mk "load" (Some (id user)) None None None None None None.

(** Log one operation in the room of the socket. *)
Definition logOperation (socket : string) (mkOp : User → OpData.t) (now : Z)
    (sv : t) : option t :=
  match resolve socket sv with
  | None => Some sv
  | Some ss =>
      match DrawingState.addOperation (mkOp (user ss)) now (drawingState ss) with
      | None => None
      | Some (_, ds') => Some (store ss ds' sv)
      end
  end.

(** [socket.on('draw-start', ...)] *)
Definition onDrawStart (socket : string) (data : DrawData) (now : Z)
    (genStrokeId : string) (sv : t) : option t :=
  logOperation socket (λ user, drawStartOperation user genStrokeId data) now sv.

(** [socket.on('draw-move', ...)] *)
Definition onDrawMove (socket : string) (data : DrawData) (now : Z) (sv : t)
    : option t :=
  logOperation socket (λ user, drawMoveOperation user data) now sv.

(** [socket.on('erase', ...)] *)
Definition onErase (socket : string) (data : EraseData) (now : Z) (sv : t)
    : option t :=
  logOperation socket (λ user, eraseOperation user data) now sv.

(** [socket.on('undo', ...)] *)
Definition onUndo (socket : string) (now : Z) (sv : t) : option t :=
  match resolve socket sv with
  | None => Some sv
  | Some ss =>
      match DrawingState.undo (id (user ss)) now (drawingState ss) with
      | None => None
      | Some (_, ds') => Some (store ss ds' sv)
      end
  end.

(** [socket.on('redo', ...)] *)
Definition onRedo (socket : string) (sv : t) : option t :=
  match resolve socket sv with
  | None => Some sv
  | Some ss =>
      match DrawingState.redo (id (user ss)) (drawingState ss) with
      | None => None
      | Some (_, ds') => Some (store ss ds' sv)
      end
  end.

(** [socket.on('clear', ...)]: [addOperation] of a [clear] operation, then
    [drawingState.clear()]. *)
Definition onClear (socket : string) (now : Z) (sv : t) : option t :=
  match resolve socket sv with
  | None => Some sv
  | Some ss =>
      match DrawingState.addOperation (clearOperation (user ss)) now
                                      (drawingState ss) with
      | None => None
      | Some (_, ds') => Some (store ss (DrawingState.clear ds') sv)
      end
  end.

(** [socket.on('load-canvas', ...)] *)
Definition onLoadCanvas (socket : string) (state : DrawingState.Snapshot)
    (now : Z) (sv : t) : option t :=
  match resolve socket sv with
  | None => Some sv
  | Some ss =>
      match DrawingState.addOperation (loadOperation (user ss)) now
                                      (drawingState ss) with
      | None => None
      | Some (_, ds') => Some (store ss (DrawingState.importState state ds') sv)
      end
  end.

(** [socket.on('join-room', ...)] *)
Definition onJoinRoom (socket roomId : string) (sv : t) : t :=
  mk (RoomManager.joinRoom socket roomId (roomManager sv)).2 (users sv).

(** [io.on('connection', ...)] up to the registration of the handlers;
    [user] carries the generated id, name and colour. *)
Definition onConnection (socket : string) (user : User) (sv : t) : t :=
  mk (RoomManager.joinRoom socket RoomManager.defaultRoomId (roomManager sv)).2
     (<[socket := user]> (users sv)).

(** [socket.on('disconnect', ...)] *)
Definition onDisconnect (socket : string) (sv : t) : t :=
  mk (RoomManager.leaveRoom socket (roomManager sv)) (delete socket (users sv)).

(** The inbound messages that reach a room's log. *)
Inductive LogMsg :=
| DrawStart (data : DrawData) (genStrokeId : string)
| DrawMove (data : DrawData)
| Erase (data : EraseData)
| UndoMsg
| RedoMsg
| ClearMsg
| LoadCanvas (state : DrawingState.Snapshot).

Definition onLogMsg (socket : string) (msg : LogMsg) (now : Z) (sv : t)
    : option t :=
  match msg with
  | DrawStart data sid => onDrawStart socket data now sid sv
  | DrawMove data => onDrawMove socket data now sv
  | Erase data => onErase socket data now sv
  | UndoMsg => onUndo socket now sv
  | RedoMsg => onRedo socket sv
  | ClearMsg => onClear socket now sv
  | LoadCanvas state => onLoadCanvas socket state now sv
  end.

(** Everything a connection can make the server do. *)
Inductive Event :=
| Connection (socket : string) (user : User)
| JoinRoomMsg (socket roomId : string)
| Disconnect (socket : string)
| Log (socket : string) (msg : LogMsg) (now : Z).

Definition handle (ev : Event) (sv : t) : option t :=
  match ev with
  | Connection socket user => Some (onConnection socket user sv)
  | JoinRoomMsg socket roomId => Some (onJoinRoom socket roomId sv)
  | Disconnect socket => Some (onDisconnect socket sv)
  | Log socket msg now => onLogMsg socket msg now sv
  end.

Fixpoint handleAll (evs : list Event) (sv : t) : option t :=
  match evs with
  | [] => Some sv
  | ev :: rest =>
      match handle ev sv with
      | None => None
      | Some sv' => handleAll rest sv'
      end
  end.

(** *** Two connected users, the second one moved to the room [studio] *)

Definition exampleUser1 : User := mkUser "user_1" "User user_1" "#FF6B6B" "sock1".
Definition exampleUser2 : User := mkUser "user_2" "User user_2" "#4ECDC4" "sock2".

Definition exampleServer : t :=
  default new
    (handleAll [Connection "sock1" exampleUser1; Connection "sock2" exampleUser2;
                JoinRoomMsg "sock2" "studio"] new).

(** A [draw-start] payload whose [lineWidth] is [0]. *)
Definition exampleDrawData : DrawData :=
  mkDrawData None (Some "brush"%string) None (Some 0) (Some (mkPoint 1 2)).

(** The example server after a [draw-start] of the first user. *)
Definition exampleDrawn : t :=
  default exampleServer
    (onDrawStart "sock1" exampleDrawData 100 "stroke_100_a" exampleServer).

End Server.

(** ** The client's stroke store: [localStrokes] of class [CanvasManager]

    On the client, [CanvasManager] keeps the strokes it shows in the [Map]
    [localStrokes], keyed by stroke id.  The methods below are the ones the
    socket events reach through [main.js]; they are given by what they do to
    [localStrokes].  Their calls on the canvas context draw and leave
    [localStrokes] alone. *)

Module Client.

(** What the server sends to the other members of the room with
    [draw-start] and [draw-move]: the fields the client reads. *)
Record RemoteDraw := mkRemoteDraw {
  strokeId : option string;
  tool : option string;
  color : option string;
  userColor : option string;
  lineWidth : option Z;
  point : option Point;
  userId : option string
}.

(** [{...operation, operationId, userId: user.id, userColor: user.color}] of
    the [draw-start] handler. *)
Definition drawStartBroadcast (user : Server.User) (genStrokeId : string)
    (data : Server.DrawData) : RemoteDraw :=
  let operation := Server.drawStartOperation user genStrokeId data in
  mkRemoteDraw (OpData.strokeId operation) (OpData.tool operation)
               (OpData.color operation) (Some (Server.color user))
               (OpData.lineWidth operation) (OpData.point operation)
               (Some (Server.id user)).

(** [{...operation, userId: user.id, userColor: user.color}] of the
    [draw-move] handler. *)
Definition drawMoveBroadcast (user : Server.User) (data : Server.DrawData)
    : RemoteDraw :=
  let operation := Server.drawMoveOperation user data in
  mkRemoteDraw (OpData.strokeId operation) (OpData.tool operation)
               (OpData.color operation) (Some (Server.color user))
               (OpData.lineWidth operation) (OpData.point operation)
               (Some (Server.id user)).

(** A stroke object of [localStrokes]; a remote point may be missing. *)
Record LocalStroke := mkLocalStroke {
  lid : option string;
  ltool : option string;
  lcolor : option string;
  llineWidth : option Z;
  lpoints : list (option Point);
  luserId : option string
}.

(** A stroke of a [canvas-state] message, as it sits in [localStrokes]. *)
Definition ofServerStroke (st : Stroke.t) : LocalStroke :=
  mkLocalStroke (Stroke.id st) (Stroke.tool st) (Stroke.color st)
                (Stroke.lineWidth st) (Some <$> Stroke.points st)
                (Stroke.userId st).

Record t := mk { localStrokes : gmap (option string) LocalStroke }.

(** [a || b] where both may be absent. *)
Definition orOpt (a b : option string) : option string :=
  match a with
  | Some v => if bool_decide (v = ""%string) then b else Some v
  | None => b
  end.

(** [handleRemoteDrawStart(data)] *)
Definition handleRemoteDrawStart (data : RemoteDraw) (c : t) : t :=
  let stroke :=
    mkLocalStroke (strokeId data) (tool data)
                  (orOpt (color data) (userColor data)) (lineWidth data)
                  [point data] (userId data) in
  mk (<[strokeId data := stroke]> (localStrokes c)).

(** [handleRemoteDrawMove(data)] *)
Definition handleRemoteDrawMove (data : RemoteDraw) (c : t) : t :=
  match localStrokes c !! strokeId data with
  | None => c
  | Some stroke =>
      mk (<[strokeId data :=
             mkLocalStroke (lid stroke) (ltool stroke) (lcolor stroke)
                           (llineWidth stroke) (lpoints stroke ++ [point data])
                           (luserId stroke)]> (localStrokes c))
  end.

(** [loadCanvasState(strokes)] *)
Definition loadCanvasState (strokes : list Stroke.t) (c : t) : t :=
  mk (foldl (λ m st, <[Stroke.id st := ofServerStroke st]> m) ∅ strokes).

(** [clearCanvas()] *)
Definition clearCanvas (c : t) : t := mk ∅.

(** [getStrokeCount()] *)
Definition getStrokeCount (c : t) : nat := size (localStrokes c).

(** [data.userId === wsManager.userId]; the [userId] of the socket manager
    is [null] ([None]) until [user-info] arrives, and [null] equals no
    [userId] of a message. *)
Definition ownEvent (myUserId : option string) (data : RemoteDraw) : bool :=
  match userId data, myUserId with
  | Some a, Some b => bool_decide (a = b)
  | _, _ => false
  end.

(** [wsManager.onDrawStart] of [main.js] *)
Definition onDrawStart (myUserId : option string) (data : RemoteDraw) (c : t) : t :=
  if ownEvent myUserId data then c else handleRemoteDrawStart data c.

(** [wsManager.onDrawMove] of [main.js] *)
Definition onDrawMove (myUserId : option string) (data : RemoteDraw) (c : t) : t :=
  if ownEvent myUserId data then c else handleRemoteDrawMove data c.

(** [wsManager.onCanvasState] of [main.js] *)
Definition onCanvasState (strokes : list Stroke.t) (c : t) : t :=
  loadCanvasState strokes c.

End Client.

(** ** The log on doubles

    The numbers of the program are IEEE 754 doubles.  This module gives the
    part of [DrawingState] that logs and folds an operation, [addOperation]
    and [applyOperation], with coordinates, widths and radii as doubles and
    with the arithmetic of the code: the differences, [Math.pow(d, 2)] as
    the product [d * d], the sum, [Math.sqrt], and the comparison
    [distance > eraseRadius], which is false when either side is [NaN].
    Clock readings and counters stay integers. *)

Module Float64.

Record Point := mkPoint { x : float; y : float }.

Module Stroke.
Record t := mk {
  id : option string;
  userId : option string;
  tool : option string;
  color : option string;
  lineWidth : option float;
  points : list Point
}.

(** [{ ...stroke, points: filteredPoints }] *)
Definition withPoints (s : t) (ps : list Point) : t :=
  mk (id s) (userId s) (tool s) (color s) (lineWidth s) ps.
End Stroke.

Module OpData.
Record t := mk {
  type : string;
  userId : option string;
  strokeId : option string;
  tool : option string;
  color : option string;
  lineWidth : option float;
  point : option Point;
  radius : option float
}.
End OpData.

Module Operation.
Record t := mk {
  id : OpId;
  type : string;
  userId : option string;
  strokeId : option string;
  tool : option string;
  color : option string;
  lineWidth : option float;
  point : option Point;
  radius : option float;
  timestamp : Z;
  undone : bool;
  undoneBy : option string;
  undoneAt : option Z
}.

(** [{id: operationId, ...operation, timestamp: Date.now()}] *)
Definition withId (oid : OpId) (o : OpData.t) (now : Z) : t :=
  mk oid (OpData.type o) (OpData.userId o) (OpData.strokeId o)
     (OpData.tool o) (OpData.color o) (OpData.lineWidth o)
     (OpData.point o) (OpData.radius o) now false None None.
End Operation.

Record t := mk {
  operationHistory : list Operation.t;
  currentHistoryIndex : Z;
  strokes : list Stroke.t;
  userOperations : gmap string (list OpId);
  operationIdCounter : Z
}.

(** [constructor()] *)
Definition new : t := mk [] (-1) [] ∅ 0.

(** [generateOperationId()] *)
Definition generateOperationId (now : Z) (s : t) : OpId * t :=
  let c := operationIdCounter s + 1 in
  ((now, c),
   mk (operationHistory s) (currentHistoryIndex s) (strokes s)
      (userOperations s) c).

(** The falsy numbers: [0], [-0] and [NaN]. *)
Definition falsy (v : float) : bool := PrimFloat.is_zero v || PrimFloat.is_nan v.

(** [a || d] on a number field. *)
Definition orNum (a : option float) (d : float) : float :=
  match a with
  | Some v => if falsy v then d else v
  | None => d
  end.

(** [Math.pow(d, 2)] *)
Definition pow2 (d : float) : float := PrimFloat.mul d d.

(** [Math.sqrt(Math.pow(point.x - erasePoint.x, 2) +
               Math.pow(point.y - erasePoint.y, 2))] *)
Definition distance (point erasePoint : Point) : float :=
  PrimFloat.sqrt
    (PrimFloat.add (pow2 (PrimFloat.sub (x point) (x erasePoint)))
                   (pow2 (PrimFloat.sub (y point) (y erasePoint)))).

(** The callback of [stroke.points.filter]: [distance > eraseRadius];
    reading [erasePoint.x] of an absent erase point throws. *)
Definition keepPoint (erasePoint : option Point) (eraseRadius : float)
    (p : Point) : option bool :=
  match erasePoint with
  | Some e => Some (PrimFloat.ltb eraseRadius (distance p e))
  | None => None
  end.

Fixpoint filterPoints (erasePoint : option Point) (eraseRadius : float)
    (ps : list Point) : option (list Point) :=
  match ps with
  | [] => Some []
  | p :: rest =>
      match keepPoint erasePoint eraseRadius p with
      | None => None
      | Some b =>
          match filterPoints erasePoint eraseRadius rest with
          | None => None
          | Some fp => Some (if b then p :: fp else fp)
          end
      end
  end.

(** The callback of [this.strokes.map]; [Some None] is the returned [null]. *)
Definition eraseStroke (erasePoint : option Point) (eraseRadius : float)
    (s : Stroke.t) : option (option Stroke.t) :=
  if bool_decide (Stroke.tool s = Some "eraser"%string) then Some (Some s)
  else
    match filterPoints erasePoint eraseRadius (Stroke.points s) with
    | None => None
    | Some filteredPoints =>
        if bool_decide (length filteredPoints = 0%nat) then Some None
        else Some (Some (Stroke.withPoints s filteredPoints))
    end.

Fixpoint mapErase (erasePoint : option Point) (eraseRadius : float)
    (ss : list Stroke.t) : option (list (option Stroke.t)) :=
  match ss with
  | [] => Some []
  | s :: rest =>
      match eraseStroke erasePoint eraseRadius s with
      | None => None
      | Some r =>
          match mapErase erasePoint eraseRadius rest with
          | None => None
          | Some rs => Some (r :: rs)
          end
      end
  end.

(** [.filter(stroke => stroke !== null)] *)
Fixpoint dropNull (rs : list (option Stroke.t)) : list Stroke.t :=
  match rs with
  | [] => []
  | Some s :: rest => s :: dropNull rest
  | None :: rest => dropNull rest
  end.

Definition sameId (sid : option string) (s : Stroke.t) : bool :=
  bool_decide (Stroke.id s = sid).

(** [stroke.points.push(operation.point)] when the point is present. *)
Definition pushPoint (pt : option Point) (s : Stroke.t) : Stroke.t :=
  match pt with
  | Some p => Stroke.withPoints s (Stroke.points s ++ [p])
  | None => s
  end.

(** The stroke found by [this.strokes.find] is updated in place. *)
Fixpoint updateFound (sid : option string) (pt : option Point)
    (ss : list Stroke.t) : list Stroke.t :=
  match ss with
  | [] => []
  | s :: rest =>
      if sameId sid s then pushPoint pt s :: rest
      else s :: updateFound sid pt rest
  end.

Definition newStroke (o : Operation.t) : Stroke.t :=
  Stroke.mk (Operation.strokeId o) (Operation.userId o) (Operation.tool o)
            (Operation.color o) (Operation.lineWidth o) [].

(** [applyOperation(operation)] on [this.strokes]. *)
Definition applyOperation (ss : list Stroke.t) (o : Operation.t)
    : option (list Stroke.t) :=
  if bool_decide (Operation.type o = "draw"%string) then
    match List.find (sameId (Operation.strokeId o)) ss with
    | Some _ => Some (updateFound (Operation.strokeId o) (Operation.point o) ss)
    | None => Some (ss ++ [pushPoint (Operation.point o) (newStroke o)])
    end
  else if bool_decide (Operation.type o = "erase"%string) then
    let erasePoint := Operation.point o in
    let eraseRadius := orNum (Operation.radius o) 20 in
    match mapErase erasePoint eraseRadius ss with
    | None => None
    | Some rs => Some (dropNull rs)
    end
  else if bool_decide (Operation.type o = "clear"%string) then Some []
  else Some ss.

(** [this.userOperations.get(userId) || []] *)
Definition userOpsOf (s : t) (userId : string) : list OpId :=
  default [] (userOperations s !! userId).

(** [addOperation(operation)] *)
Definition addOperation (o : OpData.t) (now : Z) (s : t) : option (OpId * t) :=
  let history :=
    if currentHistoryIndex s <? Z.of_nat (length (operationHistory s)) - 1
    then slice0 (currentHistoryIndex s + 1) (operationHistory s)
    else operationHistory s in
  let '(operationId, s1) := generateOperationId now s in
  let operationWithId := Operation.withId operationId o now in
  let history' := history ++ [operationWithId] in
  let index' := currentHistoryIndex s + 1 in
  match applyOperation (strokes s) operationWithId with
  | None => None
  | Some ss =>
      let users :=
        match OpData.userId o with
        | Some u =>
            if truthyStr (Some u)
            then <[u := userOpsOf s u ++ [operationId]]> (userOperations s)
            else userOperations s
        | None => userOperations s
        end in
      Some (operationId, mk history' index' ss users (operationIdCounter s1))
  end.

(** [getState()] and [getHistory()] *)
Definition getState (s : t) : list Stroke.t := strokes s.

Definition getHistory (s : t) : list Operation.t := operationHistory s.

(** A sequence of [addOperation] calls. *)
Fixpoint addAll (os : list (OpData.t * Z)) (s : t) : option t :=
  match os with
  | [] => Some s
  | (o, now) :: rest =>
      match addOperation o now s with
      | None => None
      | Some (_, s') => addAll rest s'
      end
  end.

(** The double of an integer: the integer itself up to [2^53] in absolute
    value, the nearest double beyond. *)
Definition ofZ (z : Z) : float :=
  FloatOps.SF2Prim (SpecFloat.binary_normalize FloatOps.prec FloatOps.emax z 0 false).

(** What a drawing handler logs: a [draw] on stroke [sid] with point
    [(px, py)], by [user_1] with the brush. *)
Definition exampleDraw (sid : string) (px py : Z) : OpData.t :=
  OpData.mk "draw" (Some "user_1"%string) (Some sid) (Some "brush"%string)
            (Some "#FF6B6B"%string) (Some (ofZ 5))
            (Some (mkPoint (ofZ px) (ofZ py))) None.

(** An erase gesture at [(ex, ey)] with radius [r]. *)
Definition exampleErase (ex ey r : Z) : OpData.t :=
  OpData.mk "erase" (Some "user_1"%string) None None None None
            (Some (mkPoint (ofZ ex) (ofZ ey))) (Some (ofZ r)).

(** Three points on stroke [s1]. *)
Definition exampleLog : t :=
  default new
    (addAll [(exampleDraw "s1" 0 0, 100); (exampleDraw "s1" 5 5, 101);
             (exampleDraw "s1" 5 5, 102)] new).

(** One point at [(2^26, 1)] on stroke [s1]. *)
Definition farLog : t :=
  default new (addAll [(exampleDraw "s1" 67108864 1, 100)] new).

End Float64.

(** * Properties of the operation log *)

Section Replay.
Import DrawingState.

Lemma replay_app (l1 l2 : list Operation.t) (ss : list Stroke.t) :
  replay (l1 ++ l2) ss = replay l1 ss ≫= replay l2.
Proof.
  revert ss. induction l1 as [|o l1 IH]; intros ss; simpl; [done|].
  destruct (Operation.undone o); [apply IH|].
  destruct (applyOperation ss o); simpl; [apply IH|done].
Qed.

Lemma replay_snoc (l : list Operation.t) (o : Operation.t) (ss : list Stroke.t) :
  replay (l ++ [o]) ss =
  replay l ss ≫= λ ss', if Operation.undone o then Some ss' else applyOperation ss' o.
Proof.
  rewrite replay_app. destruct (replay l ss) as [ss'|]; simpl; [|done].
  destruct (Operation.undone o); [done|]. by destruct (applyOperation ss' o).
Qed.



Lemma scanBack_last (P : Operation.t → bool) (l : list Operation.t) (o : Operation.t) :
  P o = true → scanBack P (l ++ [o]) (length (l ++ [o])) = Some (length l, o).
Proof.
  intros HP. rewrite length_app, Nat.add_1_r. simpl.
  rewrite lookup_app_r, Nat.sub_diag by lia. simpl. by rewrite HP.
Qed.

Lemma insert_last (l : list Operation.t) (o o' : Operation.t) :
  <[length l := o']> (l ++ [o]) = l ++ [o'].
Proof. rewrite insert_app_r_alt, Nat.sub_diag by lia. done. Qed.

End Replay.

(** ** The invariant of reachable logs *)

Section Invariant.
Import DrawingState.

Lemma idsOf_nil (u : string) : idsOf u [] = [].
Proof. unfold idsOf. by case_bool_decide. Qed.

Lemma idsOf_snoc (u : string) (l : list Operation.t) (o : Operation.t) :
  idsOf u (l ++ [o]) =
  idsOf u l ++
  (if bool_decide (u ≠ ""%string ∧ Operation.userId o = Some u)
   then [Operation.id o] else []).
Proof.
  unfold idsOf. case_bool_decide as Hu.
  - rewrite bool_decide_eq_false_2; [done|]. by intros [? ?]; simplify_eq.
  - rewrite filter_app, fmap_app. f_equal.
    rewrite filter_cons, filter_nil.
    destruct (decide (Operation.userId o = Some u)) as [Ho|Ho].
    + by rewrite bool_decide_eq_true_2.
    + rewrite bool_decide_eq_false_2; [done|]. by intros [? ?]; simplify_eq.
Qed.

Lemma Inv_new : Inv new.
Proof.
  split; simpl; [done|done|].
  exists 0%nat. split; [done|]. intros u. by rewrite idsOf_nil.
Qed.

(** What [addOperation] does to a log whose index is in step. *)
Lemma addOperation_inv (o : OpData.t) (now : Z) (s s' : t) (oid : OpId) :
  Inv s → addOperation o now s = Some (oid, s') →
  oid = (now, operationIdCounter s + 1) ∧
  operationHistory s' = operationHistory s ++ [Operation.withId oid o now] ∧
  applyOperation (strokes s) (Operation.withId oid o now) = Some (strokes s') ∧
  (∀ u, userOpsOf s' u =
        userOpsOf s u ++
        (if bool_decide (u ≠ ""%string ∧ OpData.userId o = Some u)
         then [oid] else [])) ∧
  Inv s'.
Proof.
  intros [Hidx Hstr [k [Hk Hus]]]. unfold addOperation.
  assert ((currentHistoryIndex s <? Z.of_nat (length (operationHistory s)) - 1) = false)
    as -> by (apply Z.ltb_ge; lia).
  simpl.
  destruct (applyOperation _ _) as [ss|] eqn:Happ; [|done].
  intros [= <- <-]. simpl.
  assert (Husers : ∀ u,
    default [] (match OpData.userId o with
      | Some u0 => if truthyStr (Some u0)
          then <[u0 := userOpsOf s u0 ++ [(now, operationIdCounter s + 1)]]> (userOperations s)
          else userOperations s
      | None => userOperations s end !! u) =
    userOpsOf s u ++
      (if bool_decide (u ≠ ""%string ∧ OpData.userId o = Some u)
       then [(now, operationIdCounter s + 1)] else [])).
  { intros u. destruct (OpData.userId o) as [v|] eqn:Hv.
    - unfold truthyStr. case_bool_decide as Hve; simpl.
      + rewrite bool_decide_eq_false_2, app_nil_r; [done|]. by intros [? ?]; simplify_eq.
      + destruct (decide (v = u)) as [->|Hne].
        * rewrite lookup_insert_eq. simpl. by rewrite bool_decide_eq_true_2.
        * rewrite lookup_insert_ne by done.
          rewrite bool_decide_eq_false_2, app_nil_r; [done|]. by intros [? ?]; simplify_eq.
    - rewrite bool_decide_eq_false_2, app_nil_r; [done|]. by intros [? ?]; simplify_eq. }
  split_and!; try done.
  split; simpl.
  - rewrite length_app. simpl. lia.
  - rewrite replay_snoc, Hstr. simpl. exact Happ.
  - exists k. split; [rewrite length_app; lia|].
    intros u. unfold userOpsOf at 1. simpl. rewrite Husers.
    rewrite drop_app_le by done. rewrite idsOf_snoc, Hus. done.
Qed.

Lemma rebuildState_inv (s s' : t) :
  currentHistoryIndex s = Z.of_nat (length (operationHistory s)) - 1 →
  rebuildState s = Some s' →
  operationHistory s' = operationHistory s ∧ Inv s'.
Proof.
  intros Hidx. unfold rebuildState.
  destruct (replay _ _) as [ss|] eqn:Hr; [|done].
  intros [= <-]. split; [done|]. split; simpl; [done|done|].
  exists (length (operationHistory s)). split; [done|].
  intros u. by rewrite drop_all, idsOf_nil.
Qed.

Lemma undo_inv (u : string) (now : Z) (s s' : t) (r : option Operation.t) :
  Inv s → undo u now s = Some (r, s') → Inv s'.
Proof.
  intros HI. unfold undo. case_bool_decide; [by intros [= <- <-]|].
  destruct (scanBack _ _ _) as [[i o]|]; [|by intros [= <- <-]].
  destruct (rebuildState _) as [s2|] eqn:Hr; [|done].
  intros [= <- <-]. apply rebuildState_inv in Hr; [apply Hr|].
  simpl. rewrite length_insert. apply HI.
Qed.

Lemma redo_inv (u : string) (s s' : t) (r : option Operation.t) :
  Inv s → redo u s = Some (r, s') → Inv s'.
Proof.
  intros HI. unfold redo.
  destruct (scanBack _ _ _) as [[i o]|]; [|by intros [= <- <-]].
  destruct (rebuildState _) as [s2|] eqn:Hr; [|done].
  intros [= <- <-]. apply rebuildState_inv in Hr; [apply Hr|].
  simpl. rewrite length_insert. apply HI.
Qed.

Lemma clear_inv (s : t) : Inv (clear s).
Proof.
  split; simpl; [done|done|].
  exists 0%nat. split; [done|]. intros u. by rewrite idsOf_nil.
Qed.

Lemma exec_inv (c : Cmd) (s s' : t) : Inv s → exec c s = Some s' → Inv s'.
Proof.
  intros HI. destruct c as [o now|u now|u|]; simpl.
  - destruct (addOperation o now s) as [[oid s1]|] eqn:Ha; [|done].
    intros [= <-]. by eapply addOperation_inv.
  - destruct (undo u now s) as [[r s1]|] eqn:Hu; [|done].
    intros [= <-]. by eapply undo_inv.
  - destruct (redo u s) as [[r s1]|] eqn:Hr; [|done].
    intros [= <-]. by eapply redo_inv.
  - intros [= <-]. apply clear_inv.
Qed.

Lemma run_inv (cs : list Cmd) (s s' : t) : Inv s → run cs s = Some s' → Inv s'.
Proof.
  revert s. induction cs as [|c cs IH]; intros s HI; simpl.
  - by intros [= <-].
  - destruct (exec c s) as [s1|] eqn:He; [|done].
    intros Hr. eapply IH; [|exact Hr]. by eapply exec_inv.
Qed.

End Invariant.

(** ** Rebuild, undo and redo *)

Section UndoRedo.
Import DrawingState.

(** C6. [rebuildState] is idempotent: running it a second time gives the
    state of the first run (a throw of the first run is a throw of both),
    and the strokes it leaves are the replay of the log from the empty
    stroke set, whatever the other fields of the state were. *)
Theorem rebuildState_idempotent (s : t) :
  (rebuildState s ≫= rebuildState) = rebuildState s ∧
  (getState <$> rebuildState s) = replay (operationHistory s) [].
Proof.
  unfold rebuildState.
  destruct (replay (operationHistory s) []) as [ss|] eqn:Hr; simpl; [|done].
  by rewrite Hr.
Qed.



Lemma sameId_pushPoint (sid : option string) (pt : option Point) (st : Stroke.t) :
  sameId sid (pushPoint pt st) = sameId sid st.
Proof. by destruct pt. Qed.

Lemma find_updateFound (sid : option string) (pt : option Point)
    (ss : list Stroke.t) (st : Stroke.t) :
  List.find (sameId sid) ss = Some st →
  List.find (sameId sid) (updateFound sid pt ss) = Some (pushPoint pt st).
Proof.
  induction ss as [|s0 ss IH]; simpl; [done|].
  destruct (sameId sid s0) eqn:Hs0.
  - intros [= <-]. simpl. by rewrite sameId_pushPoint, Hs0.
  - intros Hf. simpl. rewrite Hs0. by apply IH.
Qed.

Lemma find_snoc_fresh (sid : option string) (ss : list Stroke.t) (st : Stroke.t) :
  List.find (sameId sid) ss = None → sameId sid st = true →
  List.find (sameId sid) (ss ++ [st]) = Some st.
Proof.
  intros Hnone Hst. induction ss as [|s0 ss IH]; simpl in *.
  - by rewrite Hst.
  - destruct (sameId sid s0); [done|]. by apply IH.
Qed.

(** A [draw] with a point never throws, and afterwards the stroke of its
    id is the one found before (or a new one with the attributes of the
    operation) with the point appended. *)
Lemma applyOperation_draw (ss : list Stroke.t) (o : Operation.t) (p : Point) :
  Operation.type o = "draw"%string → Operation.point o = Some p →
  ∃ ss', applyOperation ss o = Some ss' ∧
    List.find (sameId (Operation.strokeId o)) ss' =
    Some (pushPoint (Some p)
            (default (newStroke o)
                     (List.find (sameId (Operation.strokeId o)) ss))).
Proof.
  intros Ht Hp. unfold applyOperation. rewrite Ht, Hp. simpl.
  destruct (List.find _ ss) as [st|] eqn:Hf; eexists; (split; [done|]); simpl.
  - by apply (find_updateFound _ (Some p)).
  - apply find_snoc_fresh; [done|]. unfold sameId. by apply bool_decide_eq_true_2.
Qed.

Lemma addOperation_draw (s : t) (d : OpData.t) (U : string)
    (sid : option string) (p : Point) (now : Z) :
  Inv s → U ≠ ""%string → drawBy U sid p d →
  ∃ oid s', addOperation d now s = Some (oid, s') ∧ Inv s' ∧
    operationHistory s' = operationHistory s ++ [Operation.withId oid d now] ∧
    oid ∈ userOpsOf s' U ∧
    List.find (sameId sid) (strokes s') =
    Some (pushPoint (Some p)
            (default (Stroke.mk sid (Some U) (OpData.tool d) (OpData.color d)
                                (OpData.lineWidth d) [])
                     (List.find (sameId sid) (strokes s)))).
Proof.
  intros HI HU (Ht & Hu & Hs & Hp).
  destruct (applyOperation_draw (strokes s)
              (Operation.withId (now, operationIdCounter s + 1) d now) p)
    as (ss' & Happ & Hfind); [done|done|].
  destruct (addOperation d now s) as [[oid s']|] eqn:Ha.
  - destruct (addOperation_inv _ _ _ _ _ HI Ha) as (-> & Hh & Happ' & Hus & HI').
    exists (now, operationIdCounter s + 1), s'. split_and!; try done.
    + rewrite Hus, bool_decide_eq_true_2 by done. set_solver.
    + rewrite Happ in Happ'. injection Happ' as <-.
      unfold newStroke in Hfind. simpl in Hfind. rewrite Hs, Hu in Hfind.
      exact Hfind.
  - exfalso. revert Ha. unfold addOperation.
    destruct (_ <? _); simpl; by rewrite Happ.
Qed.

(** Undo works on points when it comes right after the draws.  After three
    [draw]s of user [U] on one stroke are logged on a reachable log, that
    stroke holds what it held before (nothing, for a new stroke) followed by
    the three points; an [undo(U)] that follows at once returns the third
    [draw], flagged, and leaves the state as it was before that [draw]: the
    stroke is there, now ending in the first two points. *)
Theorem undo_point_granularity (cs : list Cmd) (s : t) (U : string)
    (sid : option string) (d1 d2 d3 : OpData.t) (p1 p2 p3 : Point)
    (t1 t2 t3 now : Z) :
  run cs new = Some s → U ≠ ""%string →
  drawBy U sid p1 d1 → drawBy U sid p2 d2 → drawBy U sid p3 d3 →
  let st0 :=
    default (Stroke.mk sid (Some U) (OpData.tool d1) (OpData.color d1)
                       (OpData.lineWidth d1) [])
            (List.find (sameId sid) (getState s)) in
  ∃ s2 s3 o s4,
    run [Add d1 t1; Add d2 t2] s = Some s2 ∧
    exec (Add d3 t3) s2 = Some s3 ∧
    List.find (sameId sid) (getState s3) =
      Some (Stroke.withPoints st0 (Stroke.points st0 ++ [p1; p2; p3])) ∧
    undo U now s3 = Some (Some o, s4) ∧
    last (getHistory s4) = Some o ∧
    Operation.point o = Some p3 ∧ Operation.undone o = true ∧
    getState s4 = getState s2 ∧
    List.find (sameId sid) (getState s4) =
      Some (Stroke.withPoints st0 (Stroke.points st0 ++ [p1; p2])).
Proof.
  intros Hrun HU H1 H2 H3 st0.
  pose proof (run_inv _ _ _ Inv_new Hrun) as HI.
  destruct (addOperation_draw s d1 U sid p1 t1 HI HU H1)
    as (i1 & s1 & Ha1 & HI1 & Hh1 & _ & Hf1).
  destruct (addOperation_draw s1 d2 U sid p2 t2 HI1 HU H2)
    as (i2 & s2 & Ha2 & HI2 & Hh2 & _ & Hf2).
  destruct (addOperation_draw s2 d3 U sid p3 t3 HI2 HU H3)
    as (i3 & s3 & Ha3 & HI3 & Hh3 & Hin3 & Hf3).
  assert (Hst2 : List.find (sameId sid) (strokes s2) =
            Some (Stroke.withPoints st0 (Stroke.points st0 ++ [p1; p2]))).
  { rewrite Hf2, Hf1. subst st0. unfold getState, Stroke.withPoints. simpl.
    by rewrite <- !app_assoc. }
  assert (Hst3 : List.find (sameId sid) (strokes s3) =
            Some (Stroke.withPoints st0 (Stroke.points st0 ++ [p1; p2; p3]))).
  { rewrite Hf3, Hst2. subst st0. unfold getState, Stroke.withPoints. simpl.
    by rewrite <- !app_assoc. }
  set (o3 := Operation.withId i3 d3 t3) in *.
  set (m := Operation.markUndone o3 U now).
  exists s2, s3, m,
    (mk (operationHistory s2 ++ [m]) (currentHistoryIndex s3) (strokes s2) ∅
        (operationIdCounter s3)).
  split_and!.
  - simpl. rewrite Ha1. simpl. by rewrite Ha2.
  - simpl. by rewrite Ha3.
  - exact Hst3.
  - unfold undo. rewrite bool_decide_eq_false_2; last first.
    { intros Hl. apply nil_length_inv in Hl. rewrite Hl in Hin3. set_solver. }
    rewrite Hh3, scanBack_last; last first.
    { unfold undoable. by rewrite bool_decide_eq_true_2. }
    unfold rebuildState. simpl. rewrite insert_last, replay_snoc.
    by rewrite (inv_strokes _ HI2).
  - simpl. by rewrite last_snoc.
  - destruct H3 as (_ & _ & _ & Hp). exact Hp.
  - done.
  - done.
  - exact Hst2.
Qed.

Lemma undo_point_granularity_witness :
  ∃ s2 s3 o s4,
    run [Add (exampleDraw "s1" 0 0) 100; Add (exampleDraw "s1" 5 5) 101] new
      = Some s2 ∧
    exec (Add (exampleDraw "s1" 5 5) 102) s2 = Some s3 ∧
    List.find (sameId (Some "s1"%string)) (getState s3) =
      Some (Stroke.mk (Some "s1"%string) (Some exampleUser)
              (Some "brush"%string) (Some "#FF6B6B"%string) (Some 5)
              [mkPoint 0 0; mkPoint 5 5; mkPoint 5 5]) ∧
    undo exampleUser 200 s3 = Some (Some o, s4) ∧
    last (getHistory s4) = Some o ∧
    Operation.point o = Some (mkPoint 5 5) ∧ Operation.undone o = true ∧
    getState s4 = getState s2 ∧
    List.find (sameId (Some "s1"%string)) (getState s4) =
      Some (Stroke.mk (Some "s1"%string) (Some exampleUser)
              (Some "brush"%string) (Some "#FF6B6B"%string) (Some 5)
              [mkPoint 0 0; mkPoint 5 5]).
Proof.
  apply (undo_point_granularity [] new exampleUser (Some "s1"%string)
           (exampleDraw "s1" 0 0) (exampleDraw "s1" 5 5) (exampleDraw "s1" 5 5)
           (mkPoint 0 0) (mkPoint 5 5) (mkPoint 5 5) 100 101 102 200).
  - reflexivity.
  - discriminate.
  - repeat split.
  - repeat split.
  - repeat split.
Defined.

Lemma scanBack_Some (P : Operation.t → bool) (l : list Operation.t)
    (n i : nat) (o : Operation.t) :
  scanBack P l n = Some (i, o) →
  l !! i = Some o ∧ P o = true ∧
  ∀ j oj, (i < j < n)%nat → l !! j = Some oj → P oj = false.
Proof.
  induction n as [|m IH]; simpl; [done|].
  destruct (l !! m) as [om|] eqn:Hm.
  - destruct (P om) eqn:HP.
    + intros [= <- <-]. split_and!; [done|done|]. intros j oj Hj. lia.
    + intros Hs. destruct (IH Hs) as (Hi & HPo & Hlast).
      split_and!; [done|done|]. intros j oj Hj Hlj.
      destruct (decide (j = m)) as [->|Hne]; [by simplify_eq|].
      eapply Hlast; [|done]. lia.
  - intros Hs. destruct (IH Hs) as (Hi & HPo & Hlast).
    split_and!; [done|done|]. intros j oj Hj Hlj.
    destruct (decide (j = m)) as [->|Hne]; [by simplify_eq|].
    eapply Hlast; [|done]. lia.
Qed.

Lemma IdsFresh_new : IdsFresh new.
Proof. split; simpl; [constructor|]. intros o Ho. by apply elem_of_nil in Ho. Qed.

Lemma insert_same_id (l : list Operation.t) (i : nat) (o o' : Operation.t) :
  l !! i = Some o → Operation.id o' = Operation.id o →
  Operation.id <$> <[i := o']> l = Operation.id <$> l.
Proof.
  intros Hi Hid. rewrite list_fmap_insert, Hid.
  apply list_insert_id. by rewrite list_lookup_fmap, Hi.
Qed.

Lemma IdsFresh_insert (s : t) (i : nat) (o o' : Operation.t)
    (ss : list Stroke.t) (us : gmap string (list OpId)) :
  IdsFresh s → operationHistory s !! i = Some o →
  Operation.id o' = Operation.id o →
  IdsFresh (mk (<[i := o']> (operationHistory s)) (currentHistoryIndex s) ss us
               (operationIdCounter s)).
Proof.
  intros [Hnd Hle] Hi Hid. split; simpl.
  - by erewrite insert_same_id.
  - intros o1 Ho1. apply list_elem_of_lookup in Ho1 as [j Hj].
    destruct (decide (j = i)) as [->|Hne].
    + rewrite list_lookup_insert_eq in Hj by (by eapply lookup_lt_Some).
      injection Hj as <-. rewrite Hid. apply Hle. by eapply list_elem_of_lookup_2.
    + rewrite list_lookup_insert_ne in Hj by done.
      apply Hle. by eapply list_elem_of_lookup_2.
Qed.

Lemma exec_IdsFresh (c : Cmd) (s s' : t) :
  Inv s → IdsFresh s → exec c s = Some s' → IdsFresh s'.
Proof.
  intros HI [Hnd Hle]. destruct c as [d now|u now|u|]; simpl.
  - destruct (addOperation d now s) as [[oid s1]|] eqn:Ha; [|done].
    intros [= <-].
    destruct (addOperation_inv _ _ _ _ _ HI Ha) as (-> & Hh & _ & _ & _).
    assert (Hc : operationIdCounter s1 = operationIdCounter s + 1).
    { revert Ha. unfold addOperation. destruct (_ <? _); simpl;
        destruct (applyOperation _ _); try done; by intros [= <-]. }
    split.
    + rewrite Hh, fmap_app. simpl. apply NoDup_app. split_and!; [done| |].
      * intros oid Hin Hin'. apply list_elem_of_singleton in Hin'. subst oid.
        apply list_elem_of_fmap in Hin as (o & Hid & Ho).
        apply Hle in Ho. rewrite <- Hid in Ho. simpl in Ho. lia.
      * apply NoDup_singleton.
    + intros o. rewrite Hh, elem_of_app, list_elem_of_singleton.
      intros [Ho| ->]; [apply Hle in Ho; lia|]. simpl. lia.
  - unfold undo. case_bool_decide; simpl; [by intros [= <-]|].
    destruct (scanBack _ _ _) as [[i o]|] eqn:Hs; simpl; [|by intros [= <-]].
    destruct (rebuildState _) as [s2|] eqn:Hr; simpl; [|done]. intros [= <-].
    apply scanBack_Some in Hs as (Hi & _ & _).
    revert Hr. unfold rebuildState. simpl. destruct (replay _ _); [|done].
    intros [= <-]. by eapply (IdsFresh_insert s i o).
  - unfold redo.
    destruct (scanBack _ _ _) as [[i o]|] eqn:Hs; simpl; [|by intros [= <-]].
    destruct (rebuildState _) as [s2|] eqn:Hr; simpl; [|done]. intros [= <-].
    apply scanBack_Some in Hs as (Hi & _ & _).
    revert Hr. unfold rebuildState. simpl. destruct (replay _ _); [|done].
    intros [= <-]. by eapply (IdsFresh_insert s i o).
  - intros [= <-]. split; simpl; [constructor|].
    intros o Ho. by apply elem_of_nil in Ho.
Qed.

Lemma run_IdsFresh (cs : list Cmd) (s s' : t) :
  Inv s → IdsFresh s → run cs s = Some s' → IdsFresh s'.
Proof.
  revert s. induction cs as [|c cs IH]; intros s HI HF; simpl.
  - by intros [= <-].
  - destruct (exec c s) as [s1|] eqn:He; [|done].
    intros Hr. eapply IH; [| |exact Hr].
    + by eapply exec_inv.
    + by eapply exec_IdsFresh.
Qed.

(** In a list without repeated ids, an id names one position. *)
Lemma same_id_same_index (l : list Operation.t) (i j : nat) (o1 o2 : Operation.t) :
  NoDup (Operation.id <$> l) → l !! i = Some o1 → l !! j = Some o2 →
  Operation.id o1 = Operation.id o2 → i = j.
Proof.
  intros Hnd Hi Hj Hid. eapply NoDup_lookup; [exact Hnd| |].
  - by rewrite list_lookup_fmap, Hi.
  - by rewrite list_lookup_fmap, Hj, Hid.
Qed.

(** When [undo] does return an operation on a reachable log, it is the right
    one: the most recent operation of the user that was not flagged, now
    flagged by that user. *)
Lemma undo_returns_most_recent (cs : list Cmd) (s s' : t) (U : string)
    (now : Z) (o' : Operation.t) :
  run cs new = Some s → undo U now s = Some (Some o', s') →
  ∃ i o,
    operationHistory s !! i = Some o ∧
    Operation.userId o = Some U ∧ Operation.undone o = false ∧
    o' = Operation.markUndone o U now ∧
    operationHistory s' = <[i := o']> (operationHistory s) ∧
    ∀ j oj, (i < j)%nat → operationHistory s !! j = Some oj →
            ¬ (Operation.userId oj = Some U ∧ Operation.undone oj = false).
Proof.
  intros Hrun.
  pose proof (run_inv _ _ _ Inv_new Hrun) as HI.
  destruct (run_IdsFresh _ _ _ Inv_new IdsFresh_new Hrun) as [Hnd _].
  destruct HI as [_ _ (k & Hk & Hus)].
  unfold undo. case_bool_decide as Hlen; [done|].
  destruct (scanBack _ _ _) as [[i o]|] eqn:Hs; [|done].
  destruct (rebuildState _) as [s2|] eqn:Hr; [|done]. intros [= <- <-].
  apply scanBack_Some in Hs as (Hi & HP & Hlast).
  assert (HU : U ≠ ""%string).
  { intros ->. rewrite Hus in Hlen. unfold idsOf in Hlen. simpl in Hlen. done. }
  assert (Hmem : ∀ j oj, operationHistory s !! j = Some oj →
            (Operation.id oj ∈ userOpsOf s U ↔
             (k ≤ j)%nat ∧ Operation.userId oj = Some U)).
  { intros j oj Hj. rewrite Hus. unfold idsOf.
    rewrite bool_decide_eq_false_2 by done.
    rewrite list_elem_of_fmap. split.
    - intros (o2 & Hid & Ho2). apply list_elem_of_filter in Ho2 as [Hu2 Ho2].
      apply list_elem_of_lookup in Ho2 as [j2 Hj2]. rewrite lookup_drop in Hj2.
      assert (j = (k + j2)%nat) as -> by (by eapply same_id_same_index).
      rewrite Hj in Hj2. injection Hj2 as ->. split; [lia|done].
    - intros [Hkj Hu]. exists oj. split; [done|].
      apply list_elem_of_filter. split; [done|].
      apply list_elem_of_lookup. exists (j - k)%nat.
      rewrite lookup_drop. by replace (k + (j - k))%nat with j by lia. }
  unfold undoable in HP. apply andb_true_iff in HP as [Hin Hund].
  apply bool_decide_eq_true_1 in Hin. apply negb_true_iff in Hund.
  apply (Hmem i o Hi) in Hin as [Hki HoU].
  exists i, o. split_and!; try done.
  - revert Hr. unfold rebuildState. simpl. destruct (replay _ _); [|done].
    by intros [= <-].
  - intros j oj Hij Hj [HojU Hojund].
    assert (Hlt : (j < length (operationHistory s))%nat)
      by (by eapply lookup_lt_Some).
    specialize (Hlast j oj (conj Hij Hlt) Hj). unfold undoable in Hlast.
    rewrite Hojund, bool_decide_eq_true_2 in Hlast; [done|].
    apply (Hmem j oj Hj). split; [lia|done].
Qed.

(** Once [rebuildState] has run, the per-user index is empty and [undo]
    gives up on its first test, whoever asks. *)
Lemma undo_after_rebuildState (s s' : t) (u : string) (now : Z) :
  rebuildState s = Some s' → undo u now s' = Some (None, s').
Proof.
  unfold rebuildState. destruct (replay _ _); [|done]. by intros [= <-].
Qed.

(** C1, on the log of three points of [exampleUser]: the first [undo] flags
    the third operation and rebuilds; the second [undo] returns [null] and
    changes nothing, although the first two operations are by that user and
    not flagged. *)
Theorem undo_twice_returns_null :
  ∃ o1 s1,
    undo exampleUser 200 exampleLog = Some (Some o1, s1) ∧
    Operation.id o1 = (102, 3) ∧
    (Operation.id <$>
       filter (λ o, Operation.userId o = Some exampleUser ∧
                    Operation.undone o = false) (getHistory s1))
      = [(100, 1); (101, 2)] ∧
    undo exampleUser 201 s1 = Some (None, s1).
Proof.
  destruct (undo exampleUser 200 exampleLog) as [[[o1|] s1]|] eqn:Hu;
    try (vm_compute in Hu; discriminate).
  exists o1, s1. split; [done|].
  assert (Hr : ∃ s0, rebuildState s0 = Some s1).
  { revert Hu. unfold undo. case_bool_decide; [done|].
    destruct (scanBack _ _ _) as [[i o]|]; [|done].
    destruct (rebuildState _) as [s2|] eqn:Hr; [|done].
    intros [= _ <-]. eauto. }
  destruct Hr as [s0 Hr].
  split_and!; [| |by eapply undo_after_rebuildState].
  - vm_compute in Hu. by injection Hu as <- _.
  - vm_compute in Hu. injection Hu as _ <-. vm_compute. reflexivity.
Qed.

(** C4, on a log where another user's undo came in between.  [exampleOther]
    draws one point, [exampleUser] draws three points on stroke [s1], and
    [exampleOther] undoes its own point.  In the log so reached the three
    most recent operations of [exampleUser] are the three [draw]s on [s1],
    none flagged, and [s1] holds the three points; yet [undo(exampleUser)]
    returns [null] and leaves the log and the state as they are: no point
    of [s1] is removed.  The rebuild run by the other user's undo has
    emptied the per-user index. *)
Theorem undo_after_other_undo_removes_no_point :
  ∃ s,
    run exampleInterleaved new = Some s ∧
    ((λ o, (Operation.id o, Operation.type o, Operation.strokeId o,
            Operation.undone o)) <$>
       filter (λ o, Operation.userId o = Some exampleUser) (getHistory s))
      = [((100, 2), "draw"%string, Some "s1"%string, false);
         ((101, 3), "draw"%string, Some "s1"%string, false);
         ((102, 4), "draw"%string, Some "s1"%string, false)] ∧
    List.find (sameId (Some "s1"%string)) (getState s) =
      Some (Stroke.mk (Some "s1"%string) (Some exampleUser)
              (Some "brush"%string) (Some "#FF6B6B"%string) (Some 5)
              [mkPoint 0 0; mkPoint 5 5; mkPoint 5 5]) ∧
    undo exampleUser 200 s = Some (None, s).
Proof.
  destruct (run exampleInterleaved new) as [s|] eqn:Hs;
    [|vm_compute in Hs; discriminate].
  exists s. split; [done|].
  vm_compute in Hs. injection Hs as <-.
  split_and!; vm_compute; reflexivity.
Qed.

End UndoRedo.

(** ** Folding an erase *)

Section Erase.
Import DrawingState.

(** The integer test of [fartherThan] is the comparison of the code: the
    radius is below the square root of the sum of the squared differences. *)
Lemma fartherThan_sqrt (p e : Point) (r : Z) :
  fartherThan p e r = true ↔
  (IZR r < sqrt (IZR ((x p - x e) * (x p - x e) + (y p - y e) * (y p - y e))))%R.
Proof.
  unfold fartherThan.
  set (n := (x p - x e) * (x p - x e) + (y p - y e) * (y p - y e)).
  assert (Hn : 0 ≤ n).
  { pose proof (Z.square_nonneg (x p - x e)).
    pose proof (Z.square_nonneg (y p - y e)). unfold n. lia. }
  rewrite orb_true_iff, !Z.ltb_lt. split.
  - intros Hr.
    destruct (Z.lt_ge_cases r 0) as [Hneg|Hpos].
    + apply Rlt_le_trans with 0%R; [by apply (IZR_lt r 0)|apply sqrt_pos].
    + destruct Hr as [Hr|Hr]; [lia|].
      rewrite <- (sqrt_square (IZR r)) at 1 by (by apply (IZR_le 0 r)).
      rewrite <- mult_IZR. apply sqrt_lt_1_alt. split.
      * apply (IZR_le 0). nia.
      * by apply IZR_lt.
  - intros Hlt. destruct (Z.lt_ge_cases r 0) as [Hneg|Hpos]; [by left|right].
    destruct (Z.lt_ge_cases (r * r) n) as [|Hge]; [done|exfalso].
    apply (Rlt_irrefl (IZR r)). eapply Rlt_le_trans; [exact Hlt|].
    rewrite <- (sqrt_square (IZR r)) by (by apply (IZR_le 0 r)).
    rewrite <- mult_IZR. apply sqrt_le_1_alt. by apply IZR_le.
Qed.

Lemma filterPoints_Some (e : Point) (r : Z) (ps : list Point) :
  filterPoints (Some e) r ps = Some (List.filter (λ p, fartherThan p e r) ps).
Proof.
  induction ps as [|p ps IH]; simpl; [done|]. rewrite IH.
  by destruct (fartherThan p e r).
Qed.

Lemma mapErase_Some (e : Point) (r : Z) (ss : list Stroke.t) :
  ∃ rs, mapErase (Some e) r ss = Some rs ∧
    dropNull rs =
    omap (λ st,
            if bool_decide (Stroke.tool st = Some "eraser"%string) then Some st
            else match List.filter (λ p, fartherThan p e r) (Stroke.points st) with
                 | [] => None
                 | fp => Some (Stroke.withPoints st fp)
                 end) ss.
Proof.
  induction ss as [|st ss (rs & Hrs & Hdrop)]; simpl; [by exists []|].
  unfold eraseStroke. rewrite Hrs, filterPoints_Some.
  case_bool_decide as Htool; simpl.
  - eexists. split; [done|]. simpl. by rewrite Hdrop.
  - destruct (List.filter _ (Stroke.points st)) as [|q fp] eqn:Hfp; simpl;
      (eexists; split; [done|]); simpl; by rewrite Hdrop.
Qed.

(** The erase fold on integer coordinates.  Logging an [erase] with erase
    point [e] on a log whose index is in step appends the operation to the
    history and folds it: with [r] the radius ([20] when the field is absent
    or zero), a stroke drawn with the eraser tool stays as it is, any other
    stroke keeps exactly its points farther than [r] from [e], in order, and
    is dropped when none is left.  The same holds of the fold on any stroke
    list, as a rebuild runs it. *)
Theorem erase_fold (s : t) (d : OpData.t) (e : Point) (now : Z) :
  OpData.type d = "erase"%string → OpData.point d = Some e →
  currentHistoryIndex s = Z.of_nat (length (operationHistory s)) - 1 →
  let r := orNum (OpData.radius d) 20 in
  let kept (p : Point) := fartherThan p e r in
  let erased (st : Stroke.t) :=
    if bool_decide (Stroke.tool st = Some "eraser"%string) then Some st
    else match List.filter kept (Stroke.points st) with
         | [] => None
         | fp => Some (Stroke.withPoints st fp)
         end in
  (∀ p, kept p = true ↔
        (IZR r < sqrt (IZR ((x p - x e) * (x p - x e) +
                            (y p - y e) * (y p - y e))))%R) ∧
  ∃ oid s',
    addOperation d now s = Some (oid, s') ∧
    getState s' = omap erased (getState s) ∧
    getHistory s' = getHistory s ++ [Operation.withId oid d now] ∧
    ∀ ss, applyOperation ss (Operation.withId oid d now) = Some (omap erased ss).
Proof.
  intros Ht Hp Hidx r kept erased.
  split; [intros p; apply fartherThan_sqrt|].
  assert (Hfold : ∀ oid ss,
    applyOperation ss (Operation.withId oid d now) = Some (omap erased ss)).
  { intros oid ss. unfold applyOperation. simpl. rewrite Ht, Hp. simpl.
    destruct (mapErase_Some e r ss) as (rs & Hrs & Hdrop).
    fold r. rewrite Hrs. by rewrite Hdrop. }
  exists (now, operationIdCounter s + 1).
  unfold addOperation.
  assert ((currentHistoryIndex s <? Z.of_nat (length (operationHistory s)) - 1)
          = false) as -> by (apply Z.ltb_ge; lia).
  simpl. rewrite Hfold. eexists. split; [done|]. simpl. split_and!; try done.
Qed.

Lemma erase_fold_witness :
  ∃ oid s',
    addOperation exampleErase 300 exampleLog = Some (oid, s') ∧
    getState s' =
      [Stroke.mk (Some "s1"%string) (Some exampleUser) (Some "brush"%string)
                 (Some "#FF6B6B"%string) (Some 5) [mkPoint 0 0]] ∧
    length (getHistory s') = 4%nat.
Proof.
  destruct (erase_fold exampleLog exampleErase (mkPoint 5 5) 300)
    as [_ (oid & s' & Ha & Hs & Hh & _)].
  - reflexivity.
  - reflexivity.
  - vm_compute. reflexivity.
  - exists oid, s'. split; [exact Ha|]. split.
    + rewrite Hs. vm_compute. reflexivity.
    + rewrite Hh. vm_compute. reflexivity.
Defined.

End Erase.

(** ** Folding an erase, on doubles *)

Section EraseDouble.
Import Float64.

Lemma filterPoints64_Some (e : Point) (r : float) (ps : list Point) :
  filterPoints (Some e) r ps =
  Some (List.filter (λ p, PrimFloat.ltb r (distance p e)) ps).
Proof.
  induction ps as [|p ps IH]; simpl; [done|]. rewrite IH.
  by destruct (PrimFloat.ltb r (distance p e)).
Qed.

Lemma mapErase64_Some (e : Point) (r : float) (ss : list Stroke.t) :
  ∃ rs, mapErase (Some e) r ss = Some rs ∧
    dropNull rs =
    omap (λ st,
            if bool_decide (Stroke.tool st = Some "eraser"%string) then Some st
            else match List.filter (λ p, PrimFloat.ltb r (distance p e))
                         (Stroke.points st) with
                 | [] => None
                 | fp => Some (Stroke.withPoints st fp)
                 end) ss.
Proof.
  induction ss as [|st ss (rs & Hrs & Hdrop)]; simpl; [by exists []|].
  unfold eraseStroke. rewrite Hrs, filterPoints64_Some.
  case_bool_decide as Htool; simpl.
  - eexists. split; [done|]. simpl. by rewrite Hdrop.
  - destruct (List.filter _ (Stroke.points st)) as [|q fp] eqn:Hfp; simpl;
      (eexists; split; [done|]); simpl; by rewrite Hdrop.
Qed.

(** C5, with the distance as the code computes it.  Logging an [erase]
    with erase point [e] puts the operation at the end of the history (right
    after the operations that were there, on a log whose index is in step)
    and folds it.  With [r] the radius ([20] when the field is absent, zero
    or [NaN]) and the distance of a point from [e] computed in doubles,
    [Math.sqrt] of the sum of the squared coordinate differences: a stroke
    drawn with the eraser tool stays as it is; any other stroke keeps
    exactly the points whose computed distance is greater than [r], in
    order; a stroke left without points is dropped.  The same holds of the
    fold on any stroke list, as a rebuild runs it. *)
Theorem erase_fold_double (s : t) (d : OpData.t) (e : Point) (now : Z) :
  OpData.type d = "erase"%string → OpData.point d = Some e →
  let r := orNum (OpData.radius d) 20 in
  let kept (p : Point) := PrimFloat.ltb r (distance p e) in
  let erased (st : Stroke.t) :=
    if bool_decide (Stroke.tool st = Some "eraser"%string) then Some st
    else match List.filter kept (Stroke.points st) with
         | [] => None
         | fp => Some (Stroke.withPoints st fp)
         end in
  ∃ oid s',
    addOperation d now s = Some (oid, s') ∧
    getState s' = omap erased (getState s) ∧
    last (getHistory s') = Some (Operation.withId oid d now) ∧
    (currentHistoryIndex s = Z.of_nat (length (operationHistory s)) - 1 →
     getHistory s' = getHistory s ++ [Operation.withId oid d now]) ∧
    ∀ ss, applyOperation ss (Operation.withId oid d now) = Some (omap erased ss).
Proof.
  intros Ht Hp r kept erased.
  assert (Hfold : ∀ oid ss,
    applyOperation ss (Operation.withId oid d now) = Some (omap erased ss)).
  { intros oid ss. unfold applyOperation. simpl. rewrite Ht, Hp. simpl.
    destruct (mapErase64_Some e r ss) as (rs & Hrs & Hdrop).
    fold r. rewrite Hrs. by rewrite Hdrop. }
  exists (now, operationIdCounter s + 1).
  unfold addOperation.
  destruct (currentHistoryIndex s <? Z.of_nat (length (operationHistory s)) - 1)
    eqn:Hlt; simpl; rewrite Hfold; (eexists; split; [done|]); simpl;
    (split_and!; [done|by rewrite last_snoc| |done]).
  - apply Z.ltb_lt in Hlt. intros Hidx. lia.
  - done.
Qed.

Lemma erase_fold_double_witness :
  ∃ oid s',
    addOperation (exampleErase 5 5 3) 300 exampleLog = Some (oid, s') ∧
    getState s' =
      [Stroke.mk (Some "s1"%string) (Some "user_1"%string)
                 (Some "brush"%string) (Some "#FF6B6B"%string) (Some (ofZ 5))
                 [mkPoint (ofZ 0) (ofZ 0)]] ∧
    length (getHistory s') = 4%nat.
Proof.
  destruct (erase_fold_double exampleLog (exampleErase 5 5 3)
              (mkPoint (ofZ 5) (ofZ 5)) 300)
    as (oid & s' & Ha & Hs & _ & Hh & _).
  - reflexivity.
  - reflexivity.
  - exists oid, s'. split; [exact Ha|]. split.
    + rewrite Hs. vm_compute. reflexivity.
    + rewrite Hh; vm_compute; reflexivity.
Defined.

(** The point [(2^26, 1)] lies farther than [2^26] from the origin, since
    [2^52 + 1 > 2^52], so an erase at the origin with radius [2^26] should
    keep it.  In doubles the distance comes out as [2^26]: the erase
    removes the point and, with it, the stroke. *)
Lemma erase_rounding_counterexample :
  (IZR 67108864 < sqrt (IZR (67108864 * 67108864 + 1 * 1)))%R ∧
  distance (mkPoint (ofZ 67108864) (ofZ 1)) (mkPoint (ofZ 0) (ofZ 0))
    = ofZ 67108864 ∧
  getState farLog =
    [Stroke.mk (Some "s1"%string) (Some "user_1"%string)
               (Some "brush"%string) (Some "#FF6B6B"%string) (Some (ofZ 5))
               [mkPoint (ofZ 67108864) (ofZ 1)]] ∧
  ∃ oid s',
    addOperation (exampleErase 0 0 67108864) 300 farLog = Some (oid, s') ∧
    getState s' = [].
Proof.
  split_and!.
  - rewrite <- (sqrt_square (IZR 67108864)) at 1
      by (apply (IZR_le 0); lia).
    rewrite <- mult_IZR. apply sqrt_lt_1_alt. split.
    + apply (IZR_le 0). lia.
    + apply IZR_lt. lia.
  - vm_compute. reflexivity.
  - vm_compute. reflexivity.
  - destruct (addOperation (exampleErase 0 0 67108864) 300 farLog)
      as [[oid s']|] eqn:Ha; [|vm_compute in Ha; discriminate].
    exists oid, s'. split; [done|].
    vm_compute in Ha. by injection Ha as _ <-.
Qed.

End EraseDouble.

(** * Properties of the room registry *)

Section Registry.
Import RoomManager.

Lemma WF_new : WF new.
Proof.
  unfold new, createRoom. simpl. rewrite lookup_empty.
  split; simpl.
  - by rewrite !dom_insert_L, !dom_empty_L.
  - intros r ref. rewrite lookup_insert. case_decide; [|done].
    intros [= <-]. simpl. lia.
  - intros r1 r2 ref. rewrite !lookup_insert.
    repeat case_decide; try done. by simplify_eq.
  - by rewrite lookup_insert_eq.
Qed.

Lemma createRoom_WF (roomId : string) (m : t) : WF m → WF (createRoom roomId m).2.
Proof.
  intros [Hdom Halloc Hown Hdef]. unfold createRoom.
  destruct (rooms m !! roomId) eqn:Hr; simpl; [done|].
  split; simpl.
  - by rewrite !dom_insert_L, Hdom.
  - intros r ref. rewrite lookup_insert, length_app. simpl.
    case_decide; [intros [= <-]; lia|]. intros Hl. apply Halloc in Hl. lia.
  - intros r1 r2 ref. rewrite !lookup_insert.
    repeat case_decide; simplify_eq; try done.
    + intros [= <-] Hl. apply Halloc in Hl. lia.
    + intros Hl [= <-]. apply Halloc in Hl. lia.
    + apply Hown.
  - rewrite lookup_insert. by case_decide.
Qed.

Lemma roomUsers_insert_WF (m : t) (roomId : string) (us : gset string)
    (s2r : gmap string string) :
  WF m → is_Some (roomUsers m !! roomId) →
  WF (mk (objects m) (rooms m) s2r (<[roomId := us]> (roomUsers m))).
Proof.
  intros [Hdom Halloc Hown Hdef] Hin. split; simpl; try done.
  rewrite dom_insert_L, Hdom. apply elem_of_dom in Hin.
  apply set_eq. intros k. rewrite elem_of_union, elem_of_singleton.
  split; [by right|]. by intros [->|?].
Qed.

Lemma socketToRoom_WF (m : t) (s2r : gmap string string) :
  WF m → WF (mk (objects m) (rooms m) s2r (roomUsers m)).
Proof. by intros [Hdom Halloc Hown Hdef]. Qed.

Lemma leaveRoom_WF (socketId : string) (m : t) : WF m → WF (leaveRoom socketId m).
Proof.
  intros HW. unfold leaveRoom.
  destruct (socketToRoom m !! socketId) as [roomId|]; [|done].
  case_bool_decide; [done|].
  destruct (roomUsers m !! roomId) as [us|] eqn:Hus.
  - by apply roomUsers_insert_WF.
  - by apply socketToRoom_WF.
Qed.

Lemma joinRoom_WF (socketId roomId : string) (m : t) :
  WF m → WF (joinRoom socketId roomId m).2.
Proof.
  intros HW. unfold joinRoom. simpl.
  set (m1 := leaveRoom socketId m).
  assert (HW1 : WF m1) by by apply leaveRoom_WF.
  set (m2 := match rooms m1 !! roomId with
             | Some _ => m1
             | None => (createRoom roomId m1).2
             end).
  assert (HW2 : WF m2).
  { unfold m2. destruct (rooms m1 !! roomId); [done|]. by apply createRoom_WF. }
  destruct (roomUsers m2 !! roomId) as [us|] eqn:Hus.
  - by apply roomUsers_insert_WF.
  - by apply socketToRoom_WF.
Qed.

Lemma deleteRoom_WF (roomId : string) (m : t) : WF m → WF (deleteRoom roomId m).2.
Proof.
  intros HW. unfold deleteRoom. case_bool_decide as Hd; [done|].
  destruct (roomUsers m !! roomId) as [us|]; [|done].
  case_bool_decide; [|done]. simpl.
  destruct HW as [Hdom Halloc Hown Hdef]. split; simpl.
  - by rewrite !dom_delete_L, Hdom.
  - intros r ref. rewrite lookup_delete. case_decide; [done|]. apply Halloc.
  - intros r1 r2 ref. rewrite !lookup_delete.
    repeat case_decide; try done. apply Hown.
  - rewrite lookup_delete_ne; [done|]. congruence.
Qed.

Lemma call_WF (c : Call) (m : t) : WF m → WF (call c m).
Proof.
  intros HW. destruct c; simpl.
  - by apply createRoom_WF.
  - by apply joinRoom_WF.
  - by apply leaveRoom_WF.
  - by apply deleteRoom_WF.
Qed.

Lemma calls_WF (cs : list Call) (m : t) : WF m → WF (calls cs m).
Proof.
  revert m. induction cs as [|c cs IH]; intros m HW; simpl; [done|].
  apply IH. by apply call_WF.
Qed.

(** C8. After any sequence of [createRoom], [joinRoom], [leaveRoom] and
    [deleteRoom] calls on a fresh registry the default room is in the room
    map, and its reference leads to a log. *)
Theorem default_room_always_exists (cs : list Call) :
  is_Some (getRoomState defaultRoomId (calls cs new)) ∧
  is_Some (roomLog defaultRoomId (calls cs new)).
Proof.
  destruct (calls_WF cs new WF_new) as [_ Halloc _ [ref Href]].
  unfold roomLog, getRoomState, deref. rewrite Href. split; [by eexists|].
  apply lookup_lt_is_Some. by eapply Halloc.
Qed.



End Registry.

(** * Properties of the session coordinator *)

Section Coordinator.
Import RoomManager Server.

Lemma mutate_WF (r : Ref) (ds : DrawingState.t) (m : RoomManager.t) :
  WF m → WF (mutate r ds m).
Proof.
  intros [Hdom Halloc Hown Hdef]. split; simpl; try done.
  intros r0 ref. rewrite length_insert. apply Halloc.
Qed.

(** A handler of a drawing message either returns early or ends by leaving
    the object of the socket's room in some state. *)
Lemma onLogMsg_cases (socket : string) (msg : LogMsg) (now : Z) (sv sv' : Server.t) :
  onLogMsg socket msg now sv = Some sv' →
  sv' = sv ∨ ∃ ss ds', resolve socket sv = Some ss ∧ sv' = store ss ds' sv.
Proof.
  destruct msg; simpl;
    unfold onDrawStart, onDrawMove, onErase, logOperation, onUndo, onRedo,
           onClear, onLoadCanvas;
    (destruct (resolve socket sv) as [ss|] eqn:Hres; [|intros [= <-]; by left]);
    match goal with
    | |- match ?c with _ => _ end = _ → _ =>
        destruct c as [[r ds']|]; [|done]
    end;
    intros [= <-]; right; eauto.
Qed.

Lemma resolve_room (socket : string) (sv : Server.t) (ss : Session) :
  resolve socket sv = Some ss →
  Server.roomId ss = getRoomId socket (roomManager sv) ∧
  rooms (roomManager sv) !! Server.roomId ss = Some (drawingStateRef ss) ∧
  deref (drawingStateRef ss) (roomManager sv) = Some (drawingState ss).
Proof.
  unfold resolve. destruct (users sv !! socket) as [u|]; [|done].
  unfold getRoomState.
  destruct (rooms (roomManager sv) !! _) as [r|] eqn:Hr; [|done].
  destruct (deref r (roomManager sv)) as [ds|] eqn:Hd; [|done].
  by intros [= <-].
Qed.

Lemma handle_WF (ev : Event) (sv sv' : Server.t) :
  WF (roomManager sv) → handle ev sv = Some sv' → WF (roomManager sv').
Proof.
  intros HW. destruct ev as [socket u|socket r|socket|socket msg now]; simpl.
  - intros [= <-]. simpl. by apply joinRoom_WF.
  - intros [= <-]. simpl. by apply joinRoom_WF.
  - intros [= <-]. simpl. by apply leaveRoom_WF.
  - intros Hl. apply onLogMsg_cases in Hl as [->|(ss & ds' & _ & ->)]; [done|].
    simpl. by apply mutate_WF.
Qed.

Lemma handleAll_WF (evs : list Event) (sv sv' : Server.t) :
  WF (roomManager sv) → handleAll evs sv = Some sv' → WF (roomManager sv').
Proof.
  revert sv. induction evs as [|ev evs IH]; intros sv HW; simpl.
  - by intros [= <-].
  - destruct (handle ev sv) as [sv1|] eqn:Hh; [|done].
    intros Hr. eapply IH; [|exact Hr]. by eapply handle_WF.
Qed.

(** Writing to the object of one room leaves the log of every other room. *)
Lemma store_other_room (sv : Server.t) (ss : Session) (ds' : DrawingState.t)
    (socket y : string) :
  WF (roomManager sv) → resolve socket sv = Some ss →
  getRoomId socket (roomManager sv) ≠ y →
  roomLog y (roomManager (store ss ds' sv)) = roomLog y (roomManager sv).
Proof.
  intros HW Hres Hy.
  destruct (resolve_room _ _ _ Hres) as (Hid & Href & _).
  unfold roomLog, getRoomState, deref. simpl.
  destruct (rooms (roomManager sv) !! y) as [ry|] eqn:Hry; [|done].
  apply list_lookup_insert_ne. intros Heq. subst ry.
  apply Hy. rewrite <- Hid. by eapply (wf_own _ HW).
Qed.

(** C9. On a server reached from a fresh one by any events, a drawing
    message ([draw-start], [draw-move], [erase], [undo], [redo], [clear],
    [load-canvas]) from a socket whose room is not [y] leaves the log of [y]
    as it was: its history and its strokes are unchanged. *)
Theorem room_isolation (evs : list Event) (sv sv' : Server.t)
    (socket : string) (msg : LogMsg) (now : Z) (y : string) :
  handleAll evs Server.new = Some sv →
  getRoomId socket (roomManager sv) ≠ y →
  onLogMsg socket msg now sv = Some sv' →
  roomLog y (roomManager sv') = roomLog y (roomManager sv) ∧
  (DrawingState.getHistory <$> roomLog y (roomManager sv')) =
    (DrawingState.getHistory <$> roomLog y (roomManager sv)) ∧
  (DrawingState.getState <$> roomLog y (roomManager sv')) =
    (DrawingState.getState <$> roomLog y (roomManager sv)).
Proof.
  intros Hreach Hy Hmsg.
  assert (HW : WF (roomManager sv)).
  { eapply handleAll_WF; [|exact Hreach]. apply WF_new. }
  assert (Heq : roomLog y (roomManager sv') = roomLog y (roomManager sv)).
  { apply onLogMsg_cases in Hmsg as [->|(ss & ds' & Hres & ->)]; [done|].
    by eapply store_other_room. }
  by rewrite Heq.
Qed.

Lemma room_isolation_witness :
  let sv' :=
    default exampleServer
      (onLogMsg "sock2" (DrawStart exampleDrawData "stroke_100_a") 100
                exampleServer) in
  (roomLog "default" (roomManager sv') =
     roomLog "default" (roomManager exampleServer) ∧
   (DrawingState.getHistory <$> roomLog "default" (roomManager sv')) =
     (DrawingState.getHistory <$> roomLog "default" (roomManager exampleServer)) ∧
   (DrawingState.getState <$> roomLog "default" (roomManager sv')) =
     (DrawingState.getState <$> roomLog "default" (roomManager exampleServer))) ∧
  (length ∘ DrawingState.getHistory <$> roomLog "studio" (roomManager sv'))
    = Some 1%nat.
Proof.
  split.
  - apply (room_isolation
             [Connection "sock1" exampleUser1; Connection "sock2" exampleUser2;
              JoinRoomMsg "sock2" "studio"]
             exampleServer _ "sock2"
             (DrawStart exampleDrawData "stroke_100_a") 100 "default").
    + vm_compute. reflexivity.
    + vm_compute. discriminate.
    + vm_compute. reflexivity.
  - vm_compute. reflexivity.
Defined.

(** What the [clear] handler leaves in the room of the socket: the state
    of [clear()], with an empty history and no strokes. *)
Lemma onClear_log (socket : string) (now : Z) (sv sv' : Server.t) (ss : Session) :
  WF (roomManager sv) → resolve socket sv = Some ss →
  onClear socket now sv = Some sv' →
  ∃ ds', roomLog (Server.roomId ss) (roomManager sv') = Some ds' ∧
         DrawingState.getHistory ds' = [] ∧ DrawingState.getState ds' = [].
Proof.
  intros HW Hres. unfold onClear. rewrite Hres.
  destruct (DrawingState.addOperation _ _ _) as [[oid ds1]|]; [|done].
  intros [= <-].
  destruct (resolve_room _ _ _ Hres) as (_ & Href & Hd).
  exists (DrawingState.clear ds1). split; [|done].
  unfold roomLog, getRoomState, deref. simpl. rewrite Href.
  apply list_lookup_insert_eq. apply lookup_lt_is_Some. by eexists.
Qed.

(** C2, on the example server after one [draw-start] of the first user in
    the default room: the log holds that operation; after the [clear]
    message of the same user the history of the room is empty, so neither
    the [draw] nor a [clear] operation is in it; the strokes are empty. *)
Theorem clear_discards_history :
  ∃ sv1 ds1 sv2 ds2,
    onDrawStart "sock1" exampleDrawData 100 "stroke_100_a" exampleServer
      = Some sv1 ∧
    roomLog "default" (roomManager sv1) = Some ds1 ∧
    (Operation.type <$> DrawingState.getHistory ds1) = ["draw"%string] ∧
    onClear "sock1" 200 sv1 = Some sv2 ∧
    roomLog "default" (roomManager sv2) = Some ds2 ∧
    DrawingState.getHistory ds2 = [] ∧
    DrawingState.getState ds2 = [].
Proof.
  destruct (onDrawStart "sock1" exampleDrawData 100 "stroke_100_a" exampleServer)
    as [sv1|] eqn:H1; [|vm_compute in H1; discriminate].
  destruct (roomLog "default" (roomManager sv1)) as [ds1|] eqn:Hd1; last first.
  { vm_compute in H1. injection H1 as <-. vm_compute in Hd1. discriminate. }
  destruct (onClear "sock1" 200 sv1) as [sv2|] eqn:H2; last first.
  { vm_compute in H1. injection H1 as <-. vm_compute in H2. discriminate. }
  destruct (roomLog "default" (roomManager sv2)) as [ds2|] eqn:Hd2; last first.
  { vm_compute in H1. injection H1 as <-. vm_compute in H2. injection H2 as <-.
    vm_compute in Hd2. discriminate. }
  exists sv1, ds1, sv2, ds2. split_and!; try done.
  - vm_compute in H1. injection H1 as <-. vm_compute in Hd1.
    injection Hd1 as <-. reflexivity.
  - vm_compute in H1. injection H1 as <-. vm_compute in H2. injection H2 as <-.
    vm_compute in Hd2. injection Hd2 as <-. reflexivity.
  - vm_compute in H1. injection H1 as <-. vm_compute in H2. injection H2 as <-.
    vm_compute in Hd2. injection Hd2 as <-. reflexivity.
Qed.

(** The operations the handlers build from a zero and from an absent
    number field.  An [erase] payload with radius [0] builds the operation
    of a payload without radius, with radius [20], and the handler leaves
    the same server state.  A [draw-start] or [draw-move] payload with line
    width [0] builds the operation of a payload without line width, with
    line width [5]; a stroke created from it has line width [5], and the
    handlers leave the same server state. *)
Theorem falsy_defaults (u : User) (socket genStrokeId : string)
    (pt : option Point) (sid tl cl : option string) (oid : OpId) (now : Z)
    (sv : Server.t) :
  let e0 := mkEraseData pt (Some 0) in
  let eN := mkEraseData pt None in
  let d0 := mkDrawData sid tl cl (Some 0) pt in
  let dN := mkDrawData sid tl cl None pt in
  (eraseOperation u e0 = eraseOperation u eN ∧
   OpData.radius (eraseOperation u e0) = Some 20 ∧
   orNum (Operation.radius (Operation.withId oid (eraseOperation u e0) now)) 20
     = 20 ∧
   onErase socket e0 now sv = onErase socket eN now sv) ∧
  (drawStartOperation u genStrokeId d0 = drawStartOperation u genStrokeId dN ∧
   OpData.lineWidth (drawStartOperation u genStrokeId d0) = Some 5 ∧
   Stroke.lineWidth
     (DrawingState.newStroke
        (Operation.withId oid (drawStartOperation u genStrokeId d0) now))
     = Some 5 ∧
   onDrawStart socket d0 now genStrokeId sv
     = onDrawStart socket dN now genStrokeId sv) ∧
  (drawMoveOperation u d0 = drawMoveOperation u dN ∧
   OpData.lineWidth (drawMoveOperation u d0) = Some 5 ∧
   Stroke.lineWidth
     (DrawingState.newStroke (Operation.withId oid (drawMoveOperation u d0) now))
     = Some 5 ∧
   onDrawMove socket d0 now sv = onDrawMove socket dN now sv).
Proof. done. Qed.

(** The same on the example server: a [draw-start] with line width [0] from
    the second user leaves one stroke of width [5] in the room [studio]. *)
Example draw_start_zero_width :
  (sv ← onDrawStart "sock2" exampleDrawData 100 "stroke_100_a" exampleServer;
   DrawingState.getState <$> roomLog "studio" (roomManager sv)) =
  Some [Stroke.mk (Some "stroke_100_a"%string) (Some "user_2"%string)
                  (Some "brush"%string) (Some "#4ECDC4"%string) (Some 5)
                  [mkPoint 1 2]].
Proof. vm_compute. reflexivity. Qed.

End Coordinator.

(** * Further properties of the operation log *)

Section LogShape.
Import DrawingState.

Lemma updateFound_ids (sid : option string) (pt : option Point) (ss : list Stroke.t) :
  Stroke.id <$> updateFound sid pt ss = Stroke.id <$> ss.
Proof.
  induction ss as [|st ss IH]; simpl; [done|].
  destruct (sameId sid st); csimpl; [by destruct pt|by rewrite IH].
Qed.

Lemma find_sameId_None (sid : option string) (ss : list Stroke.t) :
  List.find (sameId sid) ss = None → sid ∉ Stroke.id <$> ss.
Proof.
  induction ss as [|st ss IH]; simpl; [intros _; apply not_elem_of_nil|].
  destruct (sameId sid st) eqn:Hs; [done|]. intros Hf.
  apply not_elem_of_cons. split; [|by apply IH].
  intros ->. unfold sameId in Hs. by rewrite bool_decide_eq_true_2 in Hs.
Qed.

Lemma mapErase_ids (e : option Point) (r : Z) (ss : list Stroke.t)
    (rs : list (option Stroke.t)) :
  mapErase e r ss = Some rs →
  (Stroke.id <$> dropNull rs) `sublist_of` (Stroke.id <$> ss).
Proof.
  revert rs. induction ss as [|st ss IH]; simpl; intros rs.
  - intros [= <-]. simpl. constructor.
  - destruct (eraseStroke e r st) as [r0|] eqn:He; [|done].
    destruct (mapErase e r ss) as [rs0|]; [|done]. intros [= <-].
    specialize (IH rs0 eq_refl). revert He. unfold eraseStroke.
    case_bool_decide.
    + intros [= <-]. simpl. by apply sublist_skip.
    + destruct (filterPoints e r (Stroke.points st)) as [fp|]; [|done].
      case_bool_decide; intros [= <-]; simpl.
      * by apply sublist_cons.
      * by apply sublist_skip.
Qed.

(** One fold keeps the stroke ids pairwise different. *)
Lemma applyOperation_NoDup (ss ss' : list Stroke.t) (o : Operation.t) :
  applyOperation ss o = Some ss' →
  NoDup (Stroke.id <$> ss) → NoDup (Stroke.id <$> ss').
Proof.
  unfold applyOperation. case_bool_decide.
  { destruct (List.find _ ss) eqn:Hf; intros [= <-] Hnd.
    - by rewrite updateFound_ids.
    - rewrite fmap_app. apply NoDup_app. split_and!; [done| |].
      + intros sid Hin Hin'. simpl in Hin'. apply list_elem_of_singleton in Hin'.
        apply find_sameId_None in Hf. subst sid.
        by destruct (Operation.point o).
      + simpl. apply NoDup_singleton. }
  case_bool_decide.
  { destruct (mapErase _ _ ss) as [rs|] eqn:Hm; [|done]. intros [= <-] Hnd.
    eapply sublist_NoDup; [exact Hnd|by eapply mapErase_ids]. }
  case_bool_decide; intros [= <-]; [intros _; constructor|done].
Qed.

Lemma replay_NoDup (ops : list Operation.t) (ss ss' : list Stroke.t) :
  replay ops ss = Some ss' →
  NoDup (Stroke.id <$> ss) → NoDup (Stroke.id <$> ss').
Proof.
  revert ss. induction ops as [|o ops IH]; intros ss; simpl.
  - by intros [= <-].
  - destruct (Operation.undone o); [apply IH|].
    destruct (applyOperation ss o) as [ss1|] eqn:Ha; [|done].
    intros Hr Hnd. eapply IH; [exact Hr|]. by eapply applyOperation_NoDup.
Qed.

(** On every log reached from a fresh one, no two strokes of the derived
    state have the same id. *)
Theorem stroke_ids_unique (cs : list Cmd) (s : t) :
  run cs new = Some s → NoDup (Stroke.id <$> getState s).
Proof.
  intros Hrun. pose proof (run_inv _ _ _ Inv_new Hrun) as HI.
  eapply replay_NoDup; [exact (inv_strokes _ HI)|]. constructor.
Qed.

Lemma stroke_ids_unique_witness :
  NoDup (Stroke.id <$> getState exampleLog).
Proof.
  apply (stroke_ids_unique exampleCmds exampleLog). reflexivity.
Defined.

(** On every log reached from a fresh one, no two operations of the history
    have the same id, and the counter part of every id is at most the
    counter of the log. *)
Theorem operation_ids_unique (cs : list Cmd) (s : t) :
  run cs new = Some s →
  NoDup (Operation.id <$> getHistory s) ∧
  Forall (λ o, (Operation.id o).2 ≤ operationIdCounter s) (getHistory s).
Proof.
  intros Hrun.
  destruct (run_IdsFresh _ _ _ Inv_new IdsFresh_new Hrun) as [Hnd Hle].
  split; [done|]. by apply Forall_forall.
Qed.

Lemma operation_ids_unique_witness :
  NoDup (Operation.id <$> getHistory exampleLog) ∧
  Forall (λ o, (Operation.id o).2 ≤ operationIdCounter exampleLog)
         (getHistory exampleLog).
Proof.
  apply (operation_ids_unique exampleCmds exampleLog). reflexivity.
Defined.

Lemma unmark_insert (l : list Operation.t) (i : nat) (o o' : Operation.t) :
  l !! i = Some o → Operation.unmark o' = Operation.unmark o →
  Operation.unmark <$> <[i := o']> l = Operation.unmark <$> l.
Proof.
  intros Hi Hu. rewrite list_fmap_insert, Hu.
  apply list_insert_id. by rewrite list_lookup_fmap, Hi.
Qed.

Lemma exec_history_grows (c : Cmd) (s s' : t) :
  Inv s → c ≠ Clear → exec c s = Some s' →
  (Operation.unmark <$> getHistory s) `prefix_of`
  (Operation.unmark <$> getHistory s').
Proof.
  intros HI Hc. unfold getHistory. destruct c as [d now|u now|u|]; simpl; [| | |done].
  - destruct (addOperation d now s) as [[oid s1]|] eqn:Ha; [|done].
    intros [= <-].
    destruct (addOperation_inv _ _ _ _ _ HI Ha) as (_ & -> & _).
    rewrite fmap_app. by apply prefix_app_r.
  - unfold undo. case_bool_decide; simpl; [by intros [= <-]|].
    destruct (scanBack _ _ _) as [[i o]|] eqn:Hs; simpl; [|by intros [= <-]].
    unfold rebuildState. simpl. destruct (replay _ _); [|done]. simpl.
    intros [= <-]. simpl.
    apply scanBack_Some in Hs as (Hi & _ & _).
    by erewrite unmark_insert.
  - unfold redo.
    destruct (scanBack _ _ _) as [[i o]|] eqn:Hs; simpl; [|by intros [= <-]].
    unfold rebuildState. simpl. destruct (replay _ _); [|done]. simpl.
    intros [= <-]. simpl.
    apply scanBack_Some in Hs as (Hi & _ & _).
    by erewrite unmark_insert.
Qed.

(** The log is never cut: whatever [addOperation], [undo] and [redo] calls
    follow on a reachable log, the operations it held are all still there,
    in place, changed at most in their undo markers. *)
Theorem history_never_truncated (cs cs' : list Cmd) (s s' : t) :
  run cs new = Some s → Forall (λ c, c ≠ Clear) cs' → run cs' s = Some s' →
  (Operation.unmark <$> getHistory s) `prefix_of`
  (Operation.unmark <$> getHistory s').
Proof.
  intros Hrun. pose proof (run_inv _ _ _ Inv_new Hrun) as HI. clear Hrun.
  revert s HI. induction cs' as [|c cs' IH]; intros s HI Hall; simpl.
  - by intros [= <-].
  - destruct (exec c s) as [s1|] eqn:He; [|done]. intros Hr.
    apply Forall_cons in Hall as [Hc Hall].
    etrans; [by eapply exec_history_grows|].
    apply IH; [by eapply exec_inv|done|done].
Qed.

Lemma history_never_truncated_witness :
  (Operation.unmark <$> getHistory exampleLog) `prefix_of`
  (Operation.unmark <$>
     getHistory (default new
       (run [Undo exampleUser 200; Add exampleErase 300; Redo exampleUser]
            exampleLog))).
Proof.
  apply (history_never_truncated exampleCmds
           [Undo exampleUser 200; Add exampleErase 300; Redo exampleUser]).
  - reflexivity.
  - repeat constructor; discriminate.
  - vm_compute. reflexivity.
Defined.

End LogShape.

(** ** What [undo] and [redo] pick *)

Section Pick.
Import DrawingState.

Lemma undo_returns_most_recent_witness :
  ∃ o' s',
    undo exampleUser 200 exampleLog = Some (Some o', s') ∧
    ∃ i o,
      operationHistory exampleLog !! i = Some o ∧
      Operation.userId o = Some exampleUser ∧ Operation.undone o = false ∧
      o' = Operation.markUndone o exampleUser 200 ∧
      operationHistory s' = <[i := o']> (operationHistory exampleLog) ∧
      ∀ j oj, (i < j)%nat → operationHistory exampleLog !! j = Some oj →
              ¬ (Operation.userId oj = Some exampleUser ∧
                 Operation.undone oj = false).
Proof.
  destruct (undo exampleUser 200 exampleLog) as [[[o'|] s']|] eqn:Hu;
    [|vm_compute in Hu; discriminate|vm_compute in Hu; discriminate].
  exists o', s'. split; [reflexivity|].
  apply (undo_returns_most_recent exampleCmds exampleLog s' exampleUser 200 o').
  - reflexivity.
  - exact Hu.
Defined.

Lemma scanBack_None (P : Operation.t → bool) (l : list Operation.t) (n : nat) :
  scanBack P l n = None →
  ∀ j o, (j < n)%nat → l !! j = Some o → P o = false.
Proof.
  induction n as [|m IH]; simpl; [intros _ j o Hj; lia|].
  destruct (l !! m) as [om|] eqn:Hm.
  - destruct (P om) eqn:HP; [done|]. intros Hs j o Hj Hlj.
    destruct (decide (j = m)) as [->|Hne]; [by simplify_eq|].
    eapply IH; [done| |done]. lia.
  - intros Hs j o Hj Hlj.
    destruct (decide (j = m)) as [->|Hne]; [by simplify_eq|].
    eapply IH; [done| |done]. lia.
Qed.

(** [redo(userId)] on any log: when it returns [null] nothing has changed
    and no operation of the log is flagged, by that user and of that user;
    when it returns an operation, that is the most recent such operation,
    with its three markers cleared, and it is the only entry of the history
    that changed. *)
Theorem redo_picks_most_recent (U : string) (s s' : t) (r : option Operation.t) :
  redo U s = Some (r, s') →
  match r with
  | None =>
      s' = s ∧
      Forall (λ o, ¬ (Operation.undone o = true ∧
                      Operation.userId o = Some U ∧
                      Operation.undoneBy o = Some U)) (getHistory s)
  | Some o' =>
      ∃ i o,
        getHistory s !! i = Some o ∧
        Operation.undone o = true ∧ Operation.userId o = Some U ∧
        Operation.undoneBy o = Some U ∧
        o' = Operation.unmark o ∧
        getHistory s' = <[i := o']> (getHistory s) ∧
        ∀ j oj, (i < j)%nat → getHistory s !! j = Some oj →
                ¬ (Operation.undone oj = true ∧
                   Operation.userId oj = Some U ∧
                   Operation.undoneBy oj = Some U)
  end.
Proof.
  assert (Hred : ∀ o, redoable U o = true ↔
            Operation.undone o = true ∧ Operation.userId o = Some U ∧
            Operation.undoneBy o = Some U).
  { intros o. unfold redoable.
    rewrite !andb_true_iff, !bool_decide_eq_true. tauto. }
  unfold redo, getHistory.
  destruct (scanBack _ _ _) as [[i o]|] eqn:Hs.
  - destruct (rebuildState _) as [s2|] eqn:Hr; [|done]. intros [= <- <-].
    apply scanBack_Some in Hs as (Hi & HP & Hlast).
    apply Hred in HP as (Hund & HoU & Hby).
    exists i, o. split_and!; try done.
    + revert Hr. unfold rebuildState. simpl. destruct (replay _ _); [|done].
      by intros [= <-].
    + intros j oj Hij Hj Hoj. apply Hred in Hoj.
      assert (Hlt : (j < length (operationHistory s))%nat)
        by (by eapply lookup_lt_Some).
      by rewrite (Hlast j oj (conj Hij Hlt) Hj) in Hoj.
  - intros [= <- <-]. split; [done|].
    apply Forall_forall. intros o Ho Hoo. apply Hred in Hoo.
    apply list_elem_of_lookup in Ho as [j Hj].
    rewrite (scanBack_None _ _ _ Hs j o) in Hoo; [done| |done].
    by eapply lookup_lt_Some.
Qed.

Lemma redo_picks_most_recent_witness :
  ∃ r1 s1 o' s',
    undo exampleUser 200 exampleLog = Some (r1, s1) ∧
    redo exampleUser s1 = Some (Some o', s') ∧
    ∃ i o,
      getHistory s1 !! i = Some o ∧
      Operation.undone o = true ∧ Operation.userId o = Some exampleUser ∧
      Operation.undoneBy o = Some exampleUser ∧
      o' = Operation.unmark o ∧
      getHistory s' = <[i := o']> (getHistory s1) ∧
      ∀ j oj, (i < j)%nat → getHistory s1 !! j = Some oj →
              ¬ (Operation.undone oj = true ∧
                 Operation.userId oj = Some exampleUser ∧
                 Operation.undoneBy oj = Some exampleUser).
Proof.
  destruct (undo exampleUser 200 exampleLog) as [[r1 s1]|] eqn:Hu;
    [|vm_compute in Hu; discriminate].
  destruct (redo exampleUser s1) as [[[o'|] s']|] eqn:Hr.
  - exists r1, s1, o', s'. split; [reflexivity|]. split; [exact Hr|].
    exact (redo_picks_most_recent exampleUser s1 s' (Some o') Hr).
  - vm_compute in Hu. injection Hu as <- <-. vm_compute in Hr. discriminate.
  - vm_compute in Hu. injection Hu as <- <-. vm_compute in Hr. discriminate.
Defined.

End Pick.

(** ** Folds: an erase without a point, and logs of draws *)

Section Folds.
Import DrawingState.

Lemma filterPoints_None (r : Z) (ps : list Point) :
  filterPoints None r ps = if bool_decide (ps = []) then Some [] else None.
Proof. by destruct ps. Qed.

Lemma mapErase_None (r : Z) (ss : list Stroke.t) :
  match mapErase None r ss with
  | None =>
      Exists (λ st, Stroke.tool st ≠ Some "eraser"%string ∧ Stroke.points st ≠ []) ss
  | Some rs =>
      Forall (λ st, ¬ (Stroke.tool st ≠ Some "eraser"%string ∧
                       Stroke.points st ≠ [])) ss ∧
      dropNull rs = filter (λ st, Stroke.tool st = Some "eraser"%string) ss
  end.
Proof.
  induction ss as [|st ss IH]; simpl.
  - split; [constructor|done].
  - unfold eraseStroke. rewrite filterPoints_None.
    case_bool_decide as Htool.
    + destruct (mapErase None r ss) as [rs|].
      * destruct IH as [Hall Hdrop]. split.
        -- apply Forall_cons. split; [|done]. by intros [? _].
        -- simpl. rewrite filter_cons_True by done. by rewrite Hdrop.
      * by apply Exists_cons_tl.
    + case_bool_decide as Hps.
      * simpl. destruct (mapErase None r ss) as [rs|].
        -- destruct IH as [Hall Hdrop]. split.
           ++ apply Forall_cons. split; [|done]. by intros [_ ?].
           ++ simpl. rewrite filter_cons_False by done. done.
        -- by apply Exists_cons_tl.
      * by apply Exists_cons_hd.
Qed.

Lemma applyOperation_erase_no_point (ss : list Stroke.t) (o : Operation.t) :
  Operation.type o = "erase"%string → Operation.point o = None →
  match applyOperation ss o with
  | None =>
      Exists (λ st, Stroke.tool st ≠ Some "eraser"%string ∧ Stroke.points st ≠ []) ss
  | Some ss' =>
      Forall (λ st, ¬ (Stroke.tool st ≠ Some "eraser"%string ∧
                       Stroke.points st ≠ [])) ss ∧
      ss' = filter (λ st, Stroke.tool st = Some "eraser"%string) ss
  end.
Proof.
  intros Ht Hp. unfold applyOperation. rewrite Ht, Hp. simpl.
  pose proof (mapErase_None (orNum (Operation.radius o) 20) ss) as Hm.
  by destruct (mapErase None (orNum (Operation.radius o) 20) ss).
Qed.

(** [addOperation] throws when the fold throws, and otherwise leaves the
    strokes of the fold. *)
Lemma addOperation_fold (d : OpData.t) (now : Z) (s : t) :
  match applyOperation (strokes s)
          (Operation.withId (now, operationIdCounter s + 1) d now) with
  | None => addOperation d now s = None
  | Some ss' =>
      ∃ s', addOperation d now s = Some ((now, operationIdCounter s + 1), s') ∧
            strokes s' = ss'
  end.
Proof.
  unfold addOperation.
  destruct (_ <? _); simpl; destruct (applyOperation _ _) as [ss'|];
    try done; by eexists.
Qed.

(** An [erase] message without a point, from a connected socket: the handler
    throws exactly when the room holds a stroke, not drawn with the eraser
    tool, that has a point; when it does not throw, the operation is logged
    and what remains of the room's strokes are the eraser strokes. *)
Theorem erase_without_point (socket : string) (r : option Z) (now : Z)
    (sv : Server.t) (ss : Server.Session) :
  Server.resolve socket sv = Some ss →
  let ds := Server.drawingState ss in
  let data := Server.mkEraseData None r in
  let hit (st : Stroke.t) :=
    Stroke.tool st ≠ Some "eraser"%string ∧ Stroke.points st ≠ [] in
  (Server.onErase socket data now sv = None ↔ Exists hit (getState ds)) ∧
  (¬ Exists hit (getState ds) →
   ∃ oid ds',
     addOperation (Server.eraseOperation (Server.user ss) data) now ds
       = Some (oid, ds') ∧
     Server.onErase socket data now sv = Some (Server.store ss ds' sv) ∧
     getState ds' =
       filter (λ st, Stroke.tool st = Some "eraser"%string) (getState ds)).
Proof.
  intros Hres ds data hit.
  unfold Server.onErase, Server.logOperation. rewrite Hres. fold ds.
  set (d := Server.eraseOperation (Server.user ss) data).
  pose proof (addOperation_fold d now ds) as Hadd.
  pose proof (applyOperation_erase_no_point (strokes ds)
                (Operation.withId (now, operationIdCounter ds + 1) d now)
                eq_refl eq_refl) as Happ.
  destruct (applyOperation _ _) as [ss'|].
  - destruct Hadd as (s' & Ha & Hs'). destruct Happ as [Hall ->].
    rewrite Ha. split.
    + split; [done|]. intros Hex.
      apply Exists_exists in Hex as (st & Hst & Hhit).
      rewrite Forall_forall in Hall. by destruct (Hall st Hst).
    + intros _. by exists (now, operationIdCounter ds + 1), s'.
  - rewrite Hadd. split; [done|]. intros Hn. by destruct Hn.
Qed.

Lemma erase_without_point_witness :
  let sv :=
    default Server.exampleServer
      (Server.onDrawStart "sock1" Server.exampleDrawData 100 "stroke_100_a"
                          Server.exampleServer) in
  ∃ ss, Server.resolve "sock1" sv = Some ss ∧
        Server.onErase "sock1" (Server.mkEraseData None (Some 10)) 200 sv = None.
Proof.
  intros sv.
  destruct (Server.resolve "sock1" sv) as [ss|] eqn:Hres;
    [|vm_compute in Hres; discriminate].
  exists ss. split; [reflexivity|].
  apply (erase_without_point "sock1" (Some 10) 200 sv ss Hres).
  vm_compute in Hres. injection Hres as <-. vm_compute.
  apply Exists_cons_hd. split; discriminate.
Defined.

Lemma sameId_false_ne (sid : option string) (st : Stroke.t) :
  sameId sid st = false ↔ Stroke.id st ≠ sid.
Proof. unfold sameId. by rewrite bool_decide_eq_false. Qed.

Lemma find_updateFound_ne (sid sid' : option string) (pt : option Point)
    (ss : list Stroke.t) :
  sid ≠ sid' →
  List.find (sameId sid') (updateFound sid pt ss) = List.find (sameId sid') ss.
Proof.
  intros Hne. induction ss as [|st ss IH]; simpl; [done|].
  destruct (sameId sid st) eqn:Hs; simpl.
  - rewrite sameId_pushPoint.
    assert (sameId sid' st = false) as ->; [|done].
    apply sameId_false_ne. unfold sameId in Hs.
    apply bool_decide_eq_true_1 in Hs. congruence.
  - by rewrite IH.
Qed.

Lemma find_snoc_ne (sid : option string) (ss : list Stroke.t) (st : Stroke.t) :
  sameId sid st = false →
  List.find (sameId sid) (ss ++ [st]) = List.find (sameId sid) ss.
Proof.
  intros Hst. induction ss as [|s0 ss IH]; simpl; [by rewrite Hst|].
  by destruct (sameId sid s0).
Qed.

(** A [draw], with or without a point, never throws; it changes the stroke
    of its id and no other. *)
Lemma applyOperation_draw_frame (ss : list Stroke.t) (o : Operation.t) :
  Operation.type o = "draw"%string →
  ∃ ss', applyOperation ss o = Some ss' ∧
    List.find (sameId (Operation.strokeId o)) ss' =
      Some (pushPoint (Operation.point o)
              (default (newStroke o)
                       (List.find (sameId (Operation.strokeId o)) ss))) ∧
    ∀ sid, sid ≠ Operation.strokeId o →
           List.find (sameId sid) ss' = List.find (sameId sid) ss.
Proof.
  intros Ht. unfold applyOperation. rewrite Ht. simpl.
  destruct (List.find _ ss) as [st|] eqn:Hf; eexists; (split; [done|]); simpl.
  - split; [by apply find_updateFound|].
    intros sid Hne. by apply find_updateFound_ne.
  - split.
    + apply find_snoc_fresh; [done|]. unfold sameId.
      apply bool_decide_eq_true_2. by destruct (Operation.point o).
    + intros sid Hne. apply find_snoc_ne. apply sameId_false_ne.
      by destruct (Operation.point o).
Qed.

(** A stroke is the accumulation of the unflagged [draw]s of its id.  The
    replay of a log of [draw] operations from the empty stroke set does not
    throw; a stroke id is in the result exactly when an unflagged operation
    carries it, and then the stroke has the attributes of the first such
    operation and the points of all of them, in log order. *)
Theorem strokes_accumulate_draws (ops : list Operation.t) :
  Forall (λ o, Operation.type o = "draw"%string) ops →
  ∃ ss, replay ops [] = Some ss ∧
    ∀ sid,
      let active :=
        filter (λ o, Operation.strokeId o = sid ∧ Operation.undone o = false)
               ops in
      match List.find (sameId sid) ss with
      | Some st =>
          ∃ o0 rest, active = o0 :: rest ∧
            st = Stroke.withPoints (newStroke o0) (omap Operation.point active)
      | None => active = []
      end.
Proof.
  induction ops as [|o ops IH] using rev_ind; intros Hall.
  { exists []. split; [done|]. intros sid. simpl. done. }
  apply Forall_app in Hall as [Hall Ho]. rewrite Forall_singleton in Ho.
  destruct (IH Hall) as (ss & Hr & Hss).
  rewrite replay_snoc, Hr. simpl.
  destruct (Operation.undone o) eqn:Hund.
  { exists ss. split; [done|]. intros sid. simpl.
    rewrite filter_app, filter_cons_False, filter_nil, app_nil_r; [apply Hss|].
    rewrite Hund. by intros [_ ?]. }
  destruct (applyOperation_draw_frame ss o Ho) as (ss' & Ha & Hown & Hother).
  exists ss'. split; [done|]. intros sid. simpl.
  rewrite filter_app.
  destruct (decide (sid = Operation.strokeId o)) as [->|Hne].
  - rewrite (filter_cons_True _ o) by done. rewrite filter_nil, Hown.
    specialize (Hss (Operation.strokeId o)). simpl in Hss.
    destruct (List.find _ ss) as [st|].
    + destruct Hss as (o0 & rest & Hact & ->). rewrite Hact.
      exists o0, (rest ++ [o]). split; [done|].
      rewrite <- Hact, omap_app. simpl.
      destruct (Operation.point o); [done|by rewrite app_nil_r].
    + rewrite Hss. exists o, []. split; [done|]. simpl.
      by destruct (Operation.point o).
  - rewrite filter_cons_False, filter_nil, app_nil_r by (by intros [? _]).
    rewrite Hother by done. apply Hss.
Qed.

Lemma strokes_accumulate_draws_witness :
  ∃ ss, replay (getHistory exampleLog) [] = Some ss ∧
    ∀ sid,
      let active :=
        filter (λ o, Operation.strokeId o = sid ∧ Operation.undone o = false)
               (getHistory exampleLog) in
      match List.find (sameId sid) ss with
      | Some st =>
          ∃ o0 rest, active = o0 :: rest ∧
            st = Stroke.withPoints (newStroke o0) (omap Operation.point active)
      | None => active = []
      end.
Proof.
  apply (strokes_accumulate_draws (getHistory exampleLog)).
  vm_compute. repeat constructor.
Defined.

End Folds.

(** ** Import and export *)

Section ImportExport.
Import DrawingState.

Lemma indexUsers_lookup (ops : list Operation.t) (m : gmap string (list OpId))
    (u : string) :
  default [] (indexUsers ops m !! u) =
  default [] (m !! u) ++
  (if bool_decide (u = ""%string) then []
   else Operation.id <$>
          filter (λ o, Operation.userId o = Some u ∧ Operation.undone o = false)
                 ops).
Proof.
  revert m. induction ops as [|o ops IH]; intros m; cbn [indexUsers].
  { rewrite filter_nil. case_bool_decide; by rewrite app_nil_r. }
  destruct (Operation.userId o) as [v|] eqn:Hv; last first.
  { rewrite IH. case_bool_decide; [done|].
    rewrite filter_cons_False; [done|]. intros [? _]. congruence. }
  unfold truthyStr. destruct (decide (v = ""%string)) as [Hve|Hve].
  { rewrite (bool_decide_eq_true_2 (v = ""%string)) by done. cbn [negb andb].
    rewrite IH. case_bool_decide; [done|].
    rewrite filter_cons_False; [done|]. intros [? _]. congruence. }
  rewrite (bool_decide_eq_false_2 (v = ""%string)) by done.
  destruct (Operation.undone o) eqn:Hund; cbn [negb andb].
  { rewrite IH. case_bool_decide; [done|].
    rewrite filter_cons_False; [done|]. intros [_ ?]. congruence. }
  rewrite IH. destruct (decide (v = u)) as [->|Hne].
  - rewrite lookup_insert_eq. cbn [default from_option id].
    rewrite bool_decide_eq_false_2 by done.
    rewrite filter_cons_True by done. by rewrite <- app_assoc.
  - rewrite lookup_insert_ne by done. case_bool_decide; [done|].
    rewrite filter_cons_False; [done|]. intros [? _]. congruence.
Qed.

(** After [importState] the per-user index holds, for every user, the ids of
    that user's unflagged operations of the imported history, in log order;
    the flagged ones are not indexed, and nothing is indexed under the empty
    string. *)
Theorem importState_index (state : Snapshot) (s : t) (u : string) :
  userOpsOf (importState state s) u =
  if bool_decide (u = ""%string) then []
  else Operation.id <$>
         filter (λ o, Operation.userId o = Some u ∧ Operation.undone o = false)
                (getHistory (importState state s)).
Proof.
  unfold userOpsOf, importState. simpl. rewrite indexUsers_lookup.
  by rewrite lookup_empty.
Qed.

(** Right after [importState], [undo(U)] does not return [null] when the
    imported history holds an unflagged operation of [U]: it returns an
    operation (or the rebuild throws). *)
Theorem undo_after_import (state : Snapshot) (s : t) (U : string)
    (now : Z) (o : Operation.t) :
  U ≠ ""%string →
  o ∈ getHistory (importState state s) →
  Operation.userId o = Some U → Operation.undone o = false →
  undo U now (importState state s) = None ∨
  ∃ o' s', undo U now (importState state s) = Some (Some o', s').
Proof.
  intros HU Ho HoU Hound.
  assert (Hin : Operation.id o ∈ userOpsOf (importState state s) U).
  { rewrite importState_index, bool_decide_eq_false_2 by done.
    apply list_elem_of_fmap. exists o. split; [done|].
    by apply list_elem_of_filter. }
  unfold undo. case_bool_decide as Hlen.
  { apply nil_length_inv in Hlen. rewrite Hlen in Hin.
    by apply elem_of_nil in Hin. }
  destruct (scanBack _ _ _) as [[i o2]|] eqn:Hs.
  - destruct (rebuildState _); [right; by eexists _, _|by left].
  - exfalso. apply list_elem_of_lookup in Ho as [j Hj].
    assert (Hf : undoable (userOpsOf (importState state s) U) o = false).
    { eapply scanBack_None; [exact Hs| |exact Hj]. by eapply lookup_lt_Some. }
    unfold undoable in Hf. by rewrite bool_decide_eq_true_2, Hound in Hf.
Qed.

Lemma undo_after_import_witness :
  undo exampleUser 300
       (importState (exportState 250 (default new
                       (run (exampleCmds ++ [Undo exampleUser 200]) new)))
                    new) = None ∨
  ∃ o' s',
    undo exampleUser 300
         (importState (exportState 250 (default new
                         (run (exampleCmds ++ [Undo exampleUser 200]) new)))
                      new) = Some (Some o', s').
Proof.
  apply (undo_after_import _ new exampleUser 300
           (Operation.withId (101, 2) (exampleDraw "s1" 5 5) 101)).
  - discriminate.
  - vm_compute. apply list_elem_of_In. simpl. tauto.
  - reflexivity.
  - reflexivity.
Defined.

(** A [load-canvas] message from a connected socket, carrying what
    [exportState] made of some log: the handler does not throw, and
    afterwards the room of the socket has the strokes and the history of
    that log.  The [load] operation that the handler logged first is not in
    the history; it only used up one operation id. *)
Theorem load_canvas_replaces_log (evs : list Server.Event) (sv : Server.t)
    (socket : string) (ss : Server.Session) (src : t) (exported now : Z) :
  Server.handleAll evs Server.new = Some sv →
  Server.resolve socket sv = Some ss →
  ∃ sv' ds',
    Server.onLoadCanvas socket (exportState exported src) now sv = Some sv' ∧
    RoomManager.roomLog (Server.roomId ss) (Server.roomManager sv') = Some ds' ∧
    getState ds' = getState src ∧
    getHistory ds' = getHistory src ∧
    currentHistoryIndex ds' = Z.of_nat (length (getHistory src)) - 1 ∧
    operationIdCounter ds' = operationIdCounter (Server.drawingState ss) + 1.
Proof.
  intros Hreach Hres.
  assert (HW : RoomManager.WF (Server.roomManager sv)).
  { eapply handleAll_WF; [|exact Hreach]. apply WF_new. }
  destruct (resolve_room _ _ _ Hres) as (_ & Href & Hd).
  unfold Server.onLoadCanvas. rewrite Hres.
  pose proof (addOperation_fold (Server.loadOperation (Server.user ss)) now
                (Server.drawingState ss)) as Hadd.
  unfold applyOperation in Hadd. simpl in Hadd.
  destruct Hadd as (ds1 & Ha & _). rewrite Ha.
  assert (Hc : operationIdCounter ds1 =
               operationIdCounter (Server.drawingState ss) + 1).
  { revert Ha. unfold addOperation. destruct (_ <? _); simpl; by intros [= <-]. }
  exists (Server.store ss (importState (exportState exported src) ds1) sv),
         (importState (exportState exported src) ds1).
  split_and!; try done.
  unfold RoomManager.roomLog, RoomManager.getRoomState, RoomManager.deref.
  simpl. rewrite Href. apply list_lookup_insert_eq.
  apply lookup_lt_is_Some. by eexists.
Qed.

Lemma load_canvas_replaces_log_witness :
  ∃ sv' ds',
    Server.onLoadCanvas "sock2" (exportState 250 exampleLog) 300
                        Server.exampleServer = Some sv' ∧
    RoomManager.roomLog "studio" (Server.roomManager sv') = Some ds' ∧
    getState ds' = getState exampleLog ∧
    getHistory ds' = getHistory exampleLog ∧
    currentHistoryIndex ds' = 2 ∧
    operationIdCounter ds' = 1.
Proof.
  destruct (Server.resolve "sock2" Server.exampleServer) as [ss|] eqn:Hres;
    [|vm_compute in Hres; discriminate].
  destruct (load_canvas_replaces_log
              [Server.Connection "sock1" Server.exampleUser1;
               Server.Connection "sock2" Server.exampleUser2;
               Server.JoinRoomMsg "sock2" "studio"]
              Server.exampleServer "sock2" ss exampleLog 250 300)
    as (sv' & ds' & Hl & Hlog & Hs & Hh & Hi & Hc).
  - vm_compute. reflexivity.
  - exact Hres.
  - exists sv', ds'. vm_compute in Hres. injection Hres as <-.
    split_and!; try done.
Defined.

End ImportExport.

(** * Further properties of the room registry *)

Section Membership.
Import RoomManager.

Lemma WF_roomUsers (m : t) (r : string) :
  WF m → is_Some (rooms m !! r) → is_Some (roomUsers m !! r).
Proof.
  intros HW Hr. apply elem_of_dom. rewrite <- (wf_dom _ HW). by apply elem_of_dom.
Qed.

Lemma WF_rooms (m : t) (r : string) :
  WF m → is_Some (roomUsers m !! r) → is_Some (rooms m !! r).
Proof.
  intros HW Hr. apply elem_of_dom. rewrite (wf_dom _ HW). by apply elem_of_dom.
Qed.

Lemma createRoom_Seated (roomId : string) (m : t) :
  WF m → Seated m → Seated (createRoom roomId m).2.
Proof.
  intros HW HS. unfold createRoom.
  destruct (rooms m !! roomId) eqn:Hr; simpl; [done|].
  intros s r Hs. simpl in *. destruct (HS s r Hs) as (us & Hus & Hin).
  exists us. split; [|done]. rewrite lookup_insert_ne; [done|].
  intros ->. destruct (WF_rooms m r HW) as [? Hx]; [by eexists|]. congruence.
Qed.

Lemma leaveRoom_Seated (socketId : string) (m : t) :
  Seated m → Seated (leaveRoom socketId m).
Proof.
  intros HS. unfold leaveRoom.
  destruct (socketToRoom m !! socketId) as [r0|] eqn:H0; [|done].
  case_bool_decide; [done|].
  intros s r. simpl. rewrite lookup_delete.
  case_decide as Hs; [done|]. intros Hsr.
  destruct (HS s r Hsr) as (us & Hus & Hin).
  destruct (roomUsers m !! r0) as [us0|] eqn:Hus0; [|by eauto].
  destruct (decide (r0 = r)) as [->|Hne].
  - rewrite lookup_insert_eq. eexists. split; [done|].
    simplify_eq. set_solver.
  - rewrite lookup_insert_ne by done. eauto.
Qed.

Lemma joinRoom_Seated (socketId roomId : string) (m : t) :
  WF m → Seated m → Seated (joinRoom socketId roomId m).2.
Proof.
  intros HW HS. unfold joinRoom. simpl.
  set (m1 := leaveRoom socketId m).
  assert (HW1 : WF m1) by by apply leaveRoom_WF.
  assert (HS1 : Seated m1) by by apply leaveRoom_Seated.
  set (m2 := match rooms m1 !! roomId with
             | Some _ => m1
             | None => (createRoom roomId m1).2
             end).
  assert (HW2 : WF m2).
  { unfold m2. destruct (rooms m1 !! roomId); [done|]. by apply createRoom_WF. }
  assert (HS2 : Seated m2).
  { unfold m2. destruct (rooms m1 !! roomId); [done|]. by apply createRoom_Seated. }
  assert (Hr2 : is_Some (rooms m2 !! roomId)).
  { unfold m2. destruct (rooms m1 !! roomId) eqn:Hr; [by rewrite Hr|].
    unfold createRoom. rewrite Hr. simpl. by rewrite lookup_insert_eq. }
  destruct (WF_roomUsers m2 roomId HW2 Hr2) as [us Hus]. rewrite Hus.
  intros s r. simpl. rewrite lookup_insert. case_decide as Hs.
  - intros [= <-]. rewrite lookup_insert_eq. eexists. split; [done|]. set_solver.
  - intros Hsr. destruct (HS2 s r Hsr) as (us' & Hus' & Hin).
    destruct (decide (roomId = r)) as [->|Hne].
    + rewrite lookup_insert_eq. eexists. split; [done|]. simplify_eq. set_solver.
    + rewrite lookup_insert_ne by done. eauto.
Qed.

Lemma deleteRoom_Seated (roomId : string) (m : t) :
  Seated m → Seated (deleteRoom roomId m).2.
Proof.
  intros HS. unfold deleteRoom. case_bool_decide; [done|].
  destruct (roomUsers m !! roomId) as [us0|] eqn:Hus0; [|done].
  case_bool_decide as Hsz; [|done]. simpl.
  apply size_empty_inv in Hsz. apply leibniz_equiv in Hsz. subst us0.
  intros s r Hsr. simpl in *. destruct (HS s r Hsr) as (us & Hus & Hin).
  exists us. split; [|done]. rewrite lookup_delete_ne; [done|].
  intros ->. simplify_eq; set_solver.
Qed.

Lemma calls_WF_Seated (cs : list Call) (m : t) :
  WF m → Seated m → WF (calls cs m) ∧ Seated (calls cs m).
Proof.
  revert m. induction cs as [|c cs IH]; intros m HW HS; simpl; [done|].
  apply IH; [by apply call_WF|].
  destruct c; simpl.
  - by apply createRoom_Seated.
  - by apply joinRoom_Seated.
  - by apply leaveRoom_Seated.
  - by apply deleteRoom_Seated.
Qed.

Lemma Seated_new : Seated new.
Proof. intros s r. unfold new, createRoom. simpl. by rewrite lookup_empty. Qed.

Lemma resolves_to_log (m : t) (socketId : string) :
  WF m → Seated m → is_Some (roomLog (getRoomId socketId m) m).
Proof.
  intros HW HS.
  assert (Hr : is_Some (rooms m !! getRoomId socketId m)).
  { unfold getRoomId, orStr.
    destruct (socketToRoom m !! socketId) as [r|] eqn:Hs; [|apply (wf_default _ HW)].
    case_bool_decide; [apply (wf_default _ HW)|].
    destruct (HS _ _ Hs) as (us & Hus & _). apply WF_rooms; [done|by eexists]. }
  destruct Hr as [ref Href].
  unfold roomLog, getRoomState, deref. rewrite Href.
  apply lookup_lt_is_Some. by eapply (wf_alloc _ HW).
Qed.

(** After any sequence of registry calls on a fresh registry, the room id
    that [getRoomId] gives for a socket, known or not, names a room with a
    log: [getRoomState(getRoomId(socketId))] is never [null]. *)
Theorem socket_room_exists (cs : list Call) (socketId : string) :
  is_Some (roomLog (getRoomId socketId (calls cs new)) (calls cs new)).
Proof.
  destruct (calls_WF_Seated cs new WF_new Seated_new) as [HW HS].
  by apply resolves_to_log.
Qed.

Lemma roomLog_ext (m m' : t) (r : string) :
  objects m' = objects m → rooms m' = rooms m → roomLog r m' = roomLog r m.
Proof. intros Ho Hr. unfold roomLog, getRoomState, deref. by rewrite Ho, Hr. Qed.

Lemma leaveRoom_roomLog (socketId r : string) (m : t) :
  roomLog r (leaveRoom socketId m) = roomLog r m.
Proof.
  apply roomLog_ext; unfold leaveRoom;
    destruct (socketToRoom m !! socketId); try done; by case_bool_decide.
Qed.

Lemma createRoom_roomLog (roomId r : string) (m : t) (ds : DrawingState.t) :
  WF m → roomLog r m = Some ds → roomLog r (createRoom roomId m).2 = Some ds.
Proof.
  intros HW. unfold createRoom.
  destruct (rooms m !! roomId) eqn:Hr0; simpl; [done|].
  unfold roomLog, getRoomState, deref. simpl.
  destruct (rooms m !! r) as [ref|] eqn:Hr; [|done]. intros Hd.
  rewrite lookup_insert_ne by congruence. rewrite Hr.
  rewrite lookup_app_l; [done|]. by eapply (wf_alloc _ HW).
Qed.

Lemma joinRoom_roomLog (socketId roomId r : string) (m : t) (ds : DrawingState.t) :
  WF m → roomLog r m = Some ds → roomLog r (joinRoom socketId roomId m).2 = Some ds.
Proof.
  intros HW Hl. unfold joinRoom. simpl.
  set (m1 := leaveRoom socketId m).
  assert (HW1 : WF m1) by by apply leaveRoom_WF.
  assert (Hl1 : roomLog r m1 = Some ds)
    by (unfold m1; by rewrite leaveRoom_roomLog).
  set (m2 := match rooms m1 !! roomId with
             | Some _ => m1
             | None => (createRoom roomId m1).2
             end).
  assert (Hl2 : roomLog r m2 = Some ds).
  { unfold m2. destruct (rooms m1 !! roomId); [done|]. by apply createRoom_roomLog. }
  rewrite <- Hl2. by apply roomLog_ext.
Qed.

(** Registry calls do not touch logs.  On a registry whose references are
    in order (as they are on every registry the methods build), whatever
    its logs hold, the log of a room is the same object in the same state
    after any call, except the [deleteRoom] of that very room. *)
Theorem registry_calls_keep_logs (m : t) (c : Call) (r : string)
    (ds : DrawingState.t) :
  WF m → roomLog r m = Some ds → c ≠ DeleteRoom r →
  roomLog r (call c m) = Some ds.
Proof.
  intros HW Hl Hc.
  destruct c as [r0|s0 r0|s0|r0]; simpl.
  - by apply createRoom_roomLog.
  - by apply joinRoom_roomLog.
  - by rewrite leaveRoom_roomLog.
  - unfold deleteRoom. case_bool_decide; [done|].
    destruct (roomUsers _ !! r0); [|done]. case_bool_decide; [|done].
    revert Hl. unfold roomLog, getRoomState, deref. simpl.
    rewrite lookup_delete_ne; [done|]. congruence.
Qed.

Lemma registry_calls_keep_logs_witness :
  ∃ sv ds,
    Server.handleAll
      [Server.Connection "sock1" Server.exampleUser1;
       Server.Log "sock1"
         (Server.DrawStart Server.exampleDrawData "stroke_100_a") 100]
      Server.new = Some sv ∧
    length (DrawingState.getHistory ds) = 1%nat ∧
    roomLog "default" (Server.roomManager sv) = Some ds ∧
    roomLog "default" (call (JoinRoom "sock1" "default") (Server.roomManager sv))
      = Some ds ∧
    roomLog "default" (call (JoinRoom "sock9" "attic") (Server.roomManager sv))
      = Some ds ∧
    roomLog "default" (call (LeaveRoom "sock1") (Server.roomManager sv))
      = Some ds.
Proof.
  destruct (Server.handleAll
      [Server.Connection "sock1" Server.exampleUser1;
       Server.Log "sock1"
         (Server.DrawStart Server.exampleDrawData "stroke_100_a") 100]
      Server.new) as [sv|] eqn:Hsv; [|vm_compute in Hsv; discriminate].
  assert (HW : WF (Server.roomManager sv)).
  { refine (handleAll_WF _ Server.new sv _ Hsv). exact WF_new. }
  destruct (roomLog "default" (Server.roomManager sv)) as [ds|] eqn:Hds;
    [|vm_compute in Hsv; injection Hsv as <-; vm_compute in Hds; discriminate].
  exists sv, ds. split; [reflexivity|]. split.
  { vm_compute in Hsv. injection Hsv as <-. vm_compute in Hds.
    injection Hds as <-. reflexivity. }
  split; [exact Hds|]. split_and!.
  - apply (registry_calls_keep_logs _ (JoinRoom "sock1" "default") "default" ds HW Hds).
    discriminate.
  - apply (registry_calls_keep_logs _ (JoinRoom "sock9" "attic") "default" ds HW Hds).
    discriminate.
  - apply (registry_calls_keep_logs _ (LeaveRoom "sock1") "default" ds HW Hds).
    discriminate.
Defined.

End Membership.

(** ** Who is a member of which room *)

Section Members.
Import RoomManager.

Lemma leaveRoom_Exact (socketId : string) (m : t) :
  Exact m →
  Exact (leaveRoom socketId m) ∧
  socketToRoom (leaveRoom socketId m) !! socketId = None.
Proof.
  intros [HA HB]. unfold leaveRoom.
  destruct (socketToRoom m !! socketId) as [r0|] eqn:H0; [|done].
  rewrite bool_decide_eq_false_2 by by eapply HA.
  simpl. split; [|by rewrite lookup_delete_eq]. split; simpl.
  - intros s r. rewrite lookup_delete. case_decide; [done|]. apply HA.
  - intros r us s Hus Hin.
    assert (Hold : ∃ us1, roomUsers m !! r = Some us1 ∧ s ∈ us1 ∧
                          (r = r0 → s ≠ socketId)).
    { destruct (roomUsers m !! r0) as [us0|] eqn:Hus0.
      - rewrite lookup_insert in Hus. case_decide as Hr.
        + subst r. injection Hus as <-. exists us0.
          apply elem_of_difference in Hin as [Hin1 Hin2].
          split_and!; [done|done|]. intros _ ->. apply Hin2.
          by apply elem_of_singleton.
        + exists us. split_and!; [done|done|]. by intros ->.
      - exists us. split_and!; [done|done|]. intros ->. congruence. }
    destruct Hold as (us1 & Hus1 & Hin1 & Hne).
    pose proof (HB r us1 s Hus1 Hin1) as Hs.
    rewrite lookup_delete_ne; [done|]. intros <-.
    apply Hne; [|done]. congruence.
Qed.

Lemma createRoom_Exact (roomId : string) (m : t) :
  Exact m → Exact (createRoom roomId m).2.
Proof.
  intros [HA HB]. unfold createRoom.
  destruct (rooms m !! roomId); simpl; [done|]. split; simpl; [done|].
  intros r us s. rewrite lookup_insert. case_decide.
  - intros [= <-] Hin. by apply not_elem_of_empty in Hin.
  - apply HB.
Qed.

Lemma createRoom_socketToRoom (roomId : string) (m : t) :
  socketToRoom (createRoom roomId m).2 = socketToRoom m.
Proof. unfold createRoom. by destruct (rooms m !! roomId). Qed.

Lemma joinRoom_Exact (socketId roomId : string) (m : t) :
  roomId ≠ ""%string → Exact m → Exact (joinRoom socketId roomId m).2.
Proof.
  intros Hne HE. unfold joinRoom. simpl.
  destruct (leaveRoom_Exact socketId m HE) as [HE1 Hs1].
  set (m1 := leaveRoom socketId m) in *.
  set (m2 := match rooms m1 !! roomId with
             | Some _ => m1
             | None => (createRoom roomId m1).2
             end).
  assert (HE2 : Exact m2).
  { unfold m2. destruct (rooms m1 !! roomId); [done|]. by apply createRoom_Exact. }
  assert (Hs2 : socketToRoom m2 !! socketId = None).
  { unfold m2. destruct (rooms m1 !! roomId); [done|].
    by rewrite createRoom_socketToRoom. }
  destruct HE2 as [HA HB]. split; simpl.
  - intros s r. rewrite lookup_insert. case_decide; [by intros [= <-]|]. apply HA.
  - intros r us s Hus Hin.
    destruct (decide (s = socketId)) as [->|Hs].
    + rewrite lookup_insert_eq. f_equal.
      destruct (roomUsers m2 !! roomId) as [us0|] eqn:Hus0.
      * rewrite lookup_insert in Hus. case_decide as Hr; [done|].
        pose proof (HB r us socketId Hus Hin). congruence.
      * pose proof (HB r us socketId Hus Hin). congruence.
    + rewrite lookup_insert_ne by done.
      destruct (roomUsers m2 !! roomId) as [us0|] eqn:Hus0.
      * rewrite lookup_insert in Hus. case_decide as Hr.
        -- subst r. injection Hus as <-. apply (HB roomId us0 s Hus0).
           apply elem_of_union in Hin as [Hin|Hin]; [done|].
           by apply elem_of_singleton in Hin.
        -- by apply (HB r us s).
      * by apply (HB r us s).
Qed.

Lemma deleteRoom_Exact (roomId : string) (m : t) :
  Exact m → Exact (deleteRoom roomId m).2.
Proof.
  intros [HA HB]. unfold deleteRoom. case_bool_decide; [done|].
  destruct (roomUsers m !! roomId); [|done]. case_bool_decide; [|done].
  split; simpl; [done|].
  intros r us s. rewrite lookup_delete. case_decide; [done|]. apply HB.
Qed.

Lemma Exact_new : Exact new.
Proof.
  unfold new, createRoom. simpl. rewrite lookup_empty. split; simpl.
  - intros s r. by rewrite lookup_empty.
  - intros r us s. rewrite lookup_insert. case_decide; [|by rewrite lookup_empty].
    intros [= <-] Hin. by apply not_elem_of_empty in Hin.
Qed.

Lemma calls_Exact (cs : list Call) (m : t) :
  Forall nonEmptyJoin cs → Exact m → Exact (calls cs m).
Proof.
  revert m. induction cs as [|c cs IH]; intros m Hall HE; simpl; [done|].
  apply Forall_cons in Hall as [Hc Hall]. apply IH; [done|].
  destruct c; simpl.
  - by apply createRoom_Exact.
  - by apply joinRoom_Exact.
  - by apply leaveRoom_Exact.
  - by apply deleteRoom_Exact.
Qed.

(** When no call joins the room named by the empty string, the member sets
    and the socket map agree after any sequence of calls on a fresh
    registry: a socket is a member of a room exactly when the socket map
    sends it there, so no socket is a member of two rooms. *)
Theorem membership_exact (cs : list Call) (s r r' : string) :
  Forall nonEmptyJoin cs →
  let m := calls cs new in
  (s ∈ getRoomUsers r m ↔ socketToRoom m !! s = Some r) ∧
  (s ∈ getRoomUsers r m → s ∈ getRoomUsers r' m → r = r').
Proof.
  intros Hall m.
  destruct (calls_WF_Seated cs new WF_new Seated_new) as [HW HS].
  destruct (calls_Exact cs new Hall Exact_new) as [HA HB].
  fold m in HW, HS, HA, HB.
  assert (Hto : ∀ r0, s ∈ getRoomUsers r0 m → socketToRoom m !! s = Some r0).
  { intros r0. unfold getRoomUsers.
    destruct (roomUsers m !! r0) as [us|] eqn:Hus; simpl.
    - by apply HB.
    - intros Hin. by apply not_elem_of_empty in Hin. }
  split.
  - split; [apply Hto|]. intros Hs. destruct (HS s r Hs) as (us & Hus & Hin).
    unfold getRoomUsers. by rewrite Hus.
  - intros H1 H2. apply Hto in H1. apply Hto in H2. congruence.
Qed.

Lemma membership_exact_witness :
  let m := calls [JoinRoom "sock1" "studio"; JoinRoom "sock1" "default"] new in
  ("sock1"%string ∈ getRoomUsers "default" m ↔
   socketToRoom m !! "sock1"%string = Some "default"%string) ∧
  ("sock1"%string ∈ getRoomUsers "default" m →
   "sock1"%string ∈ getRoomUsers "studio" m →
   "default"%string = "studio"%string).
Proof.
  apply (membership_exact
           [JoinRoom "sock1" "studio"; JoinRoom "sock1" "default"]
           "sock1" "default" "studio").
  repeat constructor; discriminate.
Defined.

Lemma joinRoom_socketToRoom (socketId roomId : string) (m : t) :
  socketToRoom (joinRoom socketId roomId m).2 !! socketId = Some roomId.
Proof. unfold joinRoom. simpl. by rewrite lookup_insert_eq. Qed.

(** A socket that joined the room named by the empty string is never taken
    out of its member set: [leaveRoom] does nothing for it, so after it
    joins another room it is a member of both. *)
Theorem empty_room_id_keeps_member (cs : list Call) (s r : string) :
  r ≠ ""%string →
  let m1 := (joinRoom s "" (calls cs new)).2 in
  let m2 := (joinRoom s r m1).2 in
  leaveRoom s m1 = m1 ∧
  s ∈ getRoomUsers "" m2 ∧ s ∈ getRoomUsers r m2 ∧
  socketToRoom m2 !! s = Some r.
Proof.
  intros Hr m1 m2.
  destruct (calls_WF_Seated cs new WF_new Seated_new) as [HW0 HS0].
  assert (HW1 : WF m1) by by apply joinRoom_WF.
  assert (HS1 : Seated m1) by by apply joinRoom_Seated.
  assert (HS2 : Seated m2) by by apply joinRoom_Seated.
  assert (Hs1 : socketToRoom m1 !! s = Some ""%string)
    by apply joinRoom_socketToRoom.
  assert (Hs2 : socketToRoom m2 !! s = Some r) by apply joinRoom_socketToRoom.
  assert (Hleave : leaveRoom s m1 = m1).
  { unfold leaveRoom. rewrite Hs1. by rewrite bool_decide_eq_true_2. }
  destruct (HS1 s _ Hs1) as (us & Hus & Hin).
  split_and!; [done| | |done]; last first.
  { destruct (HS2 s r Hs2) as (us2 & Hus2 & Hin2).
    unfold getRoomUsers. by rewrite Hus2. }
  assert (Hus2 : roomUsers m2 !! ""%string = Some us).
  { unfold m2, joinRoom. simpl. rewrite Hleave.
    assert (Hc : roomUsers (match rooms m1 !! r with
                            | Some _ => m1
                            | None => (createRoom r m1).2
                            end) !! ""%string = Some us).
    { destruct (rooms m1 !! r) eqn:Hrr; [done|].
      unfold createRoom. rewrite Hrr. simpl. by rewrite lookup_insert_ne. }
    destruct (roomUsers _ !! r); [by rewrite lookup_insert_ne|done]. }
  unfold getRoomUsers. by rewrite Hus2.
Qed.

Lemma empty_room_id_keeps_member_witness :
  let m1 := (joinRoom "sock1" "" (calls [] new)).2 in
  let m2 := (joinRoom "sock1" "studio" m1).2 in
  leaveRoom "sock1" m1 = m1 ∧
  "sock1"%string ∈ getRoomUsers "" m2 ∧
  "sock1"%string ∈ getRoomUsers "studio" m2 ∧
  socketToRoom m2 !! "sock1"%string = Some "studio"%string.
Proof.
  apply (empty_room_id_keeps_member [] "sock1" "studio"). discriminate.
Defined.

End Members.

(** * Further properties of the session coordinator *)

Section Sessions.
Import RoomManager Server.

Lemma mutate_Seated (r : Ref) (ds : DrawingState.t) (m : RoomManager.t) :
  Seated m → Seated (mutate r ds m).
Proof. done. Qed.

Lemma handle_Seated (ev : Event) (sv sv' : Server.t) :
  WF (roomManager sv) → Seated (roomManager sv) →
  handle ev sv = Some sv' → Seated (roomManager sv').
Proof.
  intros HW HS. destruct ev as [socket u|socket r|socket|socket msg now]; simpl.
  - intros [= <-]. simpl. by apply joinRoom_Seated.
  - intros [= <-]. simpl. by apply joinRoom_Seated.
  - intros [= <-]. simpl. by apply leaveRoom_Seated.
  - intros Hl. apply onLogMsg_cases in Hl as [->|(ss & ds' & _ & ->)]; [done|].
    simpl. by apply mutate_Seated.
Qed.

Lemma handleAll_Seated (evs : list Event) (sv sv' : Server.t) :
  WF (roomManager sv) → Seated (roomManager sv) →
  handleAll evs sv = Some sv' → Seated (roomManager sv').
Proof.
  revert sv. induction evs as [|ev evs IH]; intros sv HW HS; simpl.
  - by intros [= <-].
  - destruct (handle ev sv) as [sv1|] eqn:Hh; [|done].
    intros Hr. eapply IH; [| |exact Hr].
    + by eapply handle_WF.
    + by eapply handle_Seated.
Qed.

(** On a server reached from a fresh one by any events, the opening lines
    of a drawing handler always find the room and the log of a socket that
    is in the user table: the handler never returns early at
    [if (!drawingState) return]. *)
Theorem connected_socket_resolves (evs : list Event) (sv : Server.t)
    (socket : string) (u : User) :
  handleAll evs Server.new = Some sv →
  users sv !! socket = Some u →
  ∃ ss, resolve socket sv = Some ss ∧ Server.user ss = u ∧
        roomLog (Server.roomId ss) (roomManager sv) = Some (drawingState ss).
Proof.
  intros Hreach Hu.
  assert (HW : WF (roomManager sv)).
  { eapply handleAll_WF; [|exact Hreach]. apply WF_new. }
  assert (HS : Seated (roomManager sv)).
  { eapply handleAll_Seated; [| |exact Hreach]; [apply WF_new|apply Seated_new]. }
  destruct (resolves_to_log (roomManager sv) socket HW HS) as [ds Hds].
  unfold resolve. rewrite Hu. revert Hds. unfold roomLog.
  destruct (getRoomState _ _) as [ref|] eqn:Href; [|done]. intros Hd.
  rewrite Hd. eexists. split; [done|]. simpl. split; [done|].
  by rewrite Href.
Qed.

Lemma connected_socket_resolves_witness :
  ∃ ss, resolve "sock2" exampleServer = Some ss ∧
        Server.user ss = exampleUser2 ∧
        roomLog (Server.roomId ss) (roomManager exampleServer)
          = Some (drawingState ss).
Proof.
  apply (connected_socket_resolves
           [Connection "sock1" exampleUser1; Connection "sock2" exampleUser2;
            JoinRoomMsg "sock2" "studio"]
           exampleServer "sock2" exampleUser2).
  - vm_compute. reflexivity.
  - vm_compute. reflexivity.
Defined.

(** After a handler stored a new state of the room's log, the socket
    resolves to the same user, room and reference, and to that state. *)
Lemma resolve_store (socket : string) (sv : Server.t) (ss : Session)
    (ds' : DrawingState.t) :
  resolve socket sv = Some ss →
  resolve socket (store ss ds' sv) =
  Some (mkSession (Server.user ss) (Server.roomId ss) (drawingStateRef ss) ds').
Proof.
  intros Hres.
  assert (Hu : users sv !! socket = Some (Server.user ss)).
  { revert Hres. unfold resolve. destruct (users sv !! socket); [|done].
    destruct (getRoomState _ _); [|done]. destruct (deref _ _); [|done].
    intros [= Heq]. by rewrite <- Heq. }
  destruct (resolve_room _ _ _ Hres) as (Hid & Href & Hd).
  unfold resolve. simpl. rewrite Hu.
  unfold getRoomState, getRoomId in *. simpl. rewrite <- Hid, Href.
  unfold deref in *. simpl.
  rewrite list_lookup_insert_eq; [done|]. by eapply lookup_lt_Some.
Qed.

Lemma find_sameId_fresh (sid : option string) (ss : list Stroke.t) :
  Forall (λ st, Stroke.id st ≠ sid) ss →
  List.find (DrawingState.sameId sid) ss = None.
Proof.
  induction 1 as [|st ss Hst _ IH]; simpl; [done|].
  by rewrite (proj2 (sameId_false_ne sid st) Hst).
Qed.

Lemma addOperation_new_stroke (d : OpData.t) (now : Z) (ds : DrawingState.t) :
  OpData.type d = "draw"%string →
  Forall (λ st, Stroke.id st ≠ OpData.strokeId d) (DrawingState.strokes ds) →
  ∃ oid ds',
    DrawingState.addOperation d now ds = Some (oid, ds') ∧
    DrawingState.strokes ds' =
      DrawingState.strokes ds ++
      [DrawingState.pushPoint (OpData.point d)
         (Stroke.mk (OpData.strokeId d) (OpData.userId d) (OpData.tool d)
                    (OpData.color d) (OpData.lineWidth d) [])].
Proof.
  intros Ht Hfresh.
  pose proof (addOperation_fold d now ds) as Hadd.
  unfold DrawingState.applyOperation in Hadd. simpl in Hadd.
  rewrite Ht in Hadd. simpl in Hadd.
  rewrite (find_sameId_fresh _ _ Hfresh) in Hadd.
  destruct Hadd as (ds' & Ha & Hs). by exists (now, DrawingState.operationIdCounter ds + 1), ds'.
Qed.

(** The [draw-start] handler ignores the stroke id of the payload and logs
    the point under an id it generates.  So when a client starts a stroke
    and continues it with a [draw-move] under its own stroke id, and neither
    id is in the room yet, the room gets two strokes: one under the
    generated id with the first point, one under the client's id with the
    second. *)
Theorem draw_start_splits_stroke (socket : string) (sv : Server.t)
    (ss : Session) (d1 d2 : DrawData) (genStrokeId sid : string)
    (p1 p2 : Point) (t1 t2 : Z) :
  resolve socket sv = Some ss →
  point d1 = Some p1 → point d2 = Some p2 →
  strokeId d2 = Some sid → sid ≠ genStrokeId →
  Forall (λ st, Stroke.id st ≠ Some genStrokeId ∧ Stroke.id st ≠ Some sid)
         (DrawingState.getState (drawingState ss)) →
  let uid := Server.id (Server.user ss) in
  let ucolor := Server.color (Server.user ss) in
  ∃ sv1 sv2 ss2,
    onDrawStart socket d1 t1 genStrokeId sv = Some sv1 ∧
    onDrawMove socket d2 t2 sv1 = Some sv2 ∧
    resolve socket sv2 = Some ss2 ∧
    DrawingState.getState (drawingState ss2) =
      DrawingState.getState (drawingState ss) ++
      [Stroke.mk (Some genStrokeId) (Some uid) (Some (orStr (tool d1) "brush"))
                 (Some (orStr (dcolor d1) ucolor)) (Some (orNum (lineWidth d1) 5))
                 [p1];
       Stroke.mk (Some sid) (Some uid) (Some (orStr (tool d2) "brush"))
                 (Some (orStr (dcolor d2) ucolor)) (Some (orNum (lineWidth d2) 5))
                 [p2]].
Proof.
  intros Hres Hp1 Hp2 Hsid Hne Hfresh uid ucolor.
  unfold DrawingState.getState in *.
  destruct (addOperation_new_stroke
              (drawStartOperation (Server.user ss) genStrokeId d1) t1
              (drawingState ss)) as (oid1 & ds1 & Ha1 & Hs1); [done| |].
  { eapply Forall_impl; [exact Hfresh|]. by intros st [? _]. }
  simpl in Hs1. rewrite Hp1 in Hs1. simpl in Hs1.
  destruct (addOperation_new_stroke (drawMoveOperation (Server.user ss) d2) t2 ds1)
    as (oid2 & ds2 & Ha2 & Hs2); [done| |].
  { simpl. rewrite Hs1, Hsid. apply Forall_app. split.
    - eapply Forall_impl; [exact Hfresh|]. by intros st [_ ?].
    - apply Forall_singleton. simpl. congruence. }
  simpl in Hs2. rewrite Hp2, Hsid, Hs1 in Hs2. simpl in Hs2.
  pose proof (resolve_store socket sv ss ds1 Hres) as Hres1.
  pose proof (resolve_store socket _ _ ds2 Hres1) as Hres2.
  eexists _, _, _. split_and!.
  - unfold onDrawStart, logOperation. rewrite Hres. by rewrite Ha1.
  - unfold onDrawMove, logOperation. rewrite Hres1. simpl. by rewrite Ha2.
  - exact Hres2.
  - simpl. rewrite Hs2, <- app_assoc. done.
Qed.

Lemma draw_start_splits_stroke_witness :
  ∃ sv1 sv2 ss2,
    onDrawStart "sock1" (mkDrawData (Some "client_1"%string) None None None
                                    (Some (mkPoint 0 0)))
                100 "stroke_100_a" exampleServer = Some sv1 ∧
    onDrawMove "sock1" (mkDrawData (Some "client_1"%string) None None None
                                   (Some (mkPoint 5 5)))
               101 sv1 = Some sv2 ∧
    resolve "sock1" sv2 = Some ss2 ∧
    DrawingState.getState (drawingState ss2) =
      [Stroke.mk (Some "stroke_100_a"%string) (Some "user_1"%string)
                 (Some "brush"%string) (Some "#FF6B6B"%string) (Some 5)
                 [mkPoint 0 0];
       Stroke.mk (Some "client_1"%string) (Some "user_1"%string)
                 (Some "brush"%string) (Some "#FF6B6B"%string) (Some 5)
                 [mkPoint 5 5]].
Proof.
  destruct (resolve "sock1" exampleServer) as [ss|] eqn:Hres;
    [|vm_compute in Hres; discriminate].
  destruct (draw_start_splits_stroke "sock1" exampleServer ss
              (mkDrawData (Some "client_1"%string) None None None
                          (Some (mkPoint 0 0)))
              (mkDrawData (Some "client_1"%string) None None None
                          (Some (mkPoint 5 5)))
              "stroke_100_a" "client_1" (mkPoint 0 0) (mkPoint 5 5) 100 101)
    as (sv1 & sv2 & ss2 & H1 & H2 & H3 & H4).
  - exact Hres.
  - reflexivity.
  - reflexivity.
  - reflexivity.
  - discriminate.
  - vm_compute in Hres. injection Hres as <-. vm_compute. constructor.
  - exists sv1, sv2, ss2. split_and!; try done.
    rewrite H4. vm_compute in Hres. injection Hres as <-. reflexivity.
Defined.

(** A disconnect leaves every log as it is, and afterwards every drawing
    message from the socket is ignored: the server state does not change. *)
Theorem disconnected_socket_ignored (socket : string) (sv : Server.t)
    (msg : LogMsg) (now : Z) (r : string) :
  let sv' := onDisconnect socket sv in
  roomLog r (roomManager sv') = roomLog r (roomManager sv) ∧
  users sv' !! socket = None ∧
  onLogMsg socket msg now sv' = Some sv'.
Proof.
  intros sv'. split_and!.
  - apply leaveRoom_roomLog.
  - unfold sv'. simpl. by rewrite lookup_delete_eq.
  - assert (Hres : resolve socket sv' = None).
    { unfold resolve, sv'. simpl. by rewrite lookup_delete_eq. }
    destruct msg; simpl;
      unfold onDrawStart, onDrawMove, onErase, logOperation, onUndo, onRedo,
             onClear, onLoadCanvas; by rewrite Hres.
Qed.

End Sessions.

(** * Properties of the client's stroke store *)

Section ClientStore.
Import Client.

Lemma load_fold (l : list Stroke.t) :
  NoDup (Stroke.id <$> l) →
  let m : gmap (option string) LocalStroke :=
    foldl (λ m st, <[Stroke.id st := ofServerStroke st]> m) ∅ l in
  size m = length l ∧
  (∀ st, st ∈ l → m !! Stroke.id st = Some (ofServerStroke st)) ∧
  (∀ k, k ∉ Stroke.id <$> l → m !! k = None).
Proof.
  induction l as [|x l IH] using rev_ind; intros Hnd; simpl.
  { split_and!; [done| |done]. intros st Hst. by apply elem_of_nil in Hst. }
  rewrite fmap_app in Hnd. apply NoDup_app in Hnd as (Hnd & Hx & _).
  destruct (IH Hnd) as (Hsz & Hin & Hout). clear IH.
  assert (Hfresh : Stroke.id x ∉ Stroke.id <$> l).
  { intros Hin'. apply (Hx _ Hin'). simpl. apply list_elem_of_singleton. done. }
  rewrite foldl_app. simpl. split_and!.
  - rewrite map_size_insert_None by by apply Hout.
    rewrite Hsz, length_app. simpl. lia.
  - intros st Hst. apply elem_of_app in Hst as [Hst|Hst].
    + rewrite lookup_insert_ne; [by apply Hin|].
      intros Heq. apply Hfresh. rewrite Heq. by apply list_elem_of_fmap_2.
    + apply list_elem_of_singleton in Hst. subst st. by rewrite lookup_insert_eq.
  - intros k Hk. rewrite fmap_app in Hk. apply not_elem_of_app in Hk as [Hk1 Hk2].
    rewrite lookup_insert_ne; [by apply Hout|].
    intros <-. apply Hk2. simpl. by apply list_elem_of_singleton.
Qed.

(** A [canvas-state] message that carries the strokes of a reachable log
    leaves the client with exactly those strokes, one entry per stroke: the
    client's stroke count is the server's, every stroke of the server is
    found under its id, and no other id is in the store. *)
Theorem canvas_state_gives_server_strokes (cs : list DrawingState.Cmd)
    (s : DrawingState.t) (c : Client.t) :
  DrawingState.run cs DrawingState.new = Some s →
  let c' := onCanvasState (DrawingState.getState s) c in
  getStrokeCount c' = length (DrawingState.getState s) ∧
  (∀ st, st ∈ DrawingState.getState s →
         localStrokes c' !! Stroke.id st = Some (ofServerStroke st)) ∧
  (∀ k, k ∉ Stroke.id <$> DrawingState.getState s → localStrokes c' !! k = None).
Proof.
  intros Hrun. apply load_fold. by eapply stroke_ids_unique.
Qed.

Lemma canvas_state_gives_server_strokes_witness :
  let c' := onCanvasState (DrawingState.getState DrawingState.exampleLog)
                          (Client.mk ∅) in
  getStrokeCount c' = length (DrawingState.getState DrawingState.exampleLog) ∧
  (∀ st, st ∈ DrawingState.getState DrawingState.exampleLog →
         localStrokes c' !! Stroke.id st = Some (ofServerStroke st)) ∧
  (∀ k, k ∉ Stroke.id <$> DrawingState.getState DrawingState.exampleLog →
        localStrokes c' !! k = None).
Proof.
  apply (canvas_state_gives_server_strokes DrawingState.exampleCmds
           DrawingState.exampleLog (Client.mk ∅)).
  reflexivity.
Defined.

(** What another client makes of a stroke that starts with [draw-start] and
    goes on with [draw-move] under the sender's own stroke id: the
    [draw-start] it receives carries the id the server generated, so the
    store gets a one-point stroke under that id; the [draw-move] names a
    stroke the store does not have and is dropped. *)
Theorem remote_move_after_start_is_dropped (u : Server.User)
    (genStrokeId sid : string) (d1 d2 : Server.DrawData)
    (myUserId : option string) (c : Client.t) :
  Server.strokeId d2 = Some sid → sid ≠ genStrokeId →
  localStrokes c !! Some sid = None →
  myUserId ≠ Some (Server.id u) →
  let c1 := onDrawStart myUserId (drawStartBroadcast u genStrokeId d1) c in
  let c2 := onDrawMove myUserId (drawMoveBroadcast u d2) c1 in
  localStrokes c1 =
    <[Some genStrokeId :=
        mkLocalStroke (Some genStrokeId)
          (Some (orStr (Server.tool d1) "brush"))
          (orOpt (Some (orStr (Server.dcolor d1) (Server.color u)))
                 (Some (Server.color u)))
          (Some (orNum (Server.lineWidth d1) 5)) [Server.point d1]
          (Some (Server.id u))]> (localStrokes c) ∧
  c2 = c1 ∧
  localStrokes c2 !! Some sid = None.
Proof.
  intros Hsid Hne Hnone Hmy c1 c2.
  assert (Hown : ∀ data, userId data = Some (Server.id u) →
                         ownEvent myUserId data = false).
  { intros data Hd. unfold ownEvent. rewrite Hd.
    destruct myUserId as [b|]; [|done].
    apply bool_decide_eq_false_2. congruence. }
  assert (H1 : localStrokes c1 !! Some sid = None).
  { unfold c1, onDrawStart. rewrite Hown by done. simpl.
    rewrite lookup_insert_ne; [done|]. congruence. }
  assert (H2 : c2 = c1).
  { unfold c2, onDrawMove. rewrite Hown by done.
    unfold handleRemoteDrawMove. simpl. by rewrite Hsid, H1. }
  split_and!; [|done|by rewrite H2].
  unfold c1, onDrawStart. by rewrite Hown.
Qed.

Lemma remote_move_after_start_is_dropped_witness :
  let d1 := Server.mkDrawData (Some "client_1"%string) None None None
                              (Some (mkPoint 0 0)) in
  let d2 := Server.mkDrawData (Some "client_1"%string) None None None
                              (Some (mkPoint 5 5)) in
  let c1 := onDrawStart (Some "user_2"%string)
              (drawStartBroadcast Server.exampleUser1 "stroke_100_a" d1)
              (Client.mk ∅) in
  let c2 := onDrawMove (Some "user_2"%string)
              (drawMoveBroadcast Server.exampleUser1 d2) c1 in
  localStrokes c1 =
    <[Some "stroke_100_a"%string :=
        mkLocalStroke (Some "stroke_100_a"%string) (Some "brush"%string)
          (Some "#FF6B6B"%string) (Some 5) [Some (mkPoint 0 0)]
          (Some "user_1"%string)]> ∅ ∧
  c2 = c1 ∧
  localStrokes c2 !! Some "client_1"%string = None.
Proof.
  apply (remote_move_after_start_is_dropped Server.exampleUser1
           "stroke_100_a" "client_1"
           (Server.mkDrawData (Some "client_1"%string) None None None
                              (Some (mkPoint 0 0)))
           (Server.mkDrawData (Some "client_1"%string) None None None
                              (Some (mkPoint 5 5)))
           (Some "user_2"%string) (Client.mk ∅)).
  - reflexivity.
  - discriminate.
  - reflexivity.
  - discriminate.
Defined.

End ClientStore.

(** * The operations of one user *)

Section UserOperations.
Import DrawingState.

Lemma List_filter_sublist (f : Operation.t → bool) (l : list Operation.t) :
  List.filter f l `sublist_of` l.
Proof.
  induction l as [|o l IH]; simpl; [constructor|].
  destruct (f o); [by apply sublist_skip|by apply sublist_cons].
Qed.

(** On a log reached from a fresh one, [getUserOperations(U)] returns
    operations of the history whose [userId] is [U], in log order. *)
Theorem getUserOperations_sound (cs : list Cmd) (s : t) (U : string) :
  run cs new = Some s →
  getUserOperations U s `sublist_of` getHistory s ∧
  Forall (λ o, Operation.userId o = Some U) (getUserOperations U s).
Proof.
  intros Hrun.
  pose proof (run_inv _ _ _ Inv_new Hrun) as [_ _ (k & Hk & Hus)].
  destruct (run_IdsFresh _ _ _ Inv_new IdsFresh_new Hrun) as [Hnd _].
  unfold getUserOperations, getHistory. split.
  { apply List_filter_sublist. }
  apply Forall_forall. intros o Ho.
  apply list_elem_of_In, filter_In in Ho as [Ho Hid].
  apply list_elem_of_In in Ho. apply bool_decide_eq_true_1 in Hid.
  rewrite Hus in Hid. unfold idsOf in Hid.
  case_bool_decide; [by apply elem_of_nil in Hid|].
  apply list_elem_of_fmap in Hid as (o2 & Hid & Ho2).
  apply list_elem_of_filter in Ho2 as [Hu2 Ho2].
  apply list_elem_of_lookup in Ho as [i Hi].
  apply list_elem_of_lookup in Ho2 as [j Hj]. rewrite lookup_drop in Hj.
  assert (i = (k + j)%nat) by (by eapply same_id_same_index).
  subst i. rewrite Hi in Hj. by injection Hj as ->.
Qed.

Lemma getUserOperations_sound_witness :
  getUserOperations exampleUser exampleLog `sublist_of` getHistory exampleLog ∧
  Forall (λ o, Operation.userId o = Some exampleUser)
         (getUserOperations exampleUser exampleLog).
Proof.
  apply (getUserOperations_sound exampleCmds exampleLog exampleUser).
  reflexivity.
Defined.

End UserOperations.

(** * Erasing twice, erasing more, and taking back one's last operation *)

Section EraseAlgebra.
Import DrawingState.

Lemma applyOperation_erase (ss : list Stroke.t) (o : Operation.t) (e : Point) :
  Operation.type o = "erase"%string → Operation.point o = Some e →
  applyOperation ss o = Some (omap (erasedBy e (orNum (Operation.radius o) 20)) ss).
Proof.
  intros Ht Hp. unfold applyOperation. rewrite Ht, Hp. simpl.
  destruct (mapErase_Some e (orNum (Operation.radius o) 20) ss) as (rs & -> & Hd).
  by rewrite Hd.
Qed.

Lemma List_filter_idem (f : Point → bool) (l : list Point) :
  List.filter f (List.filter f l) = List.filter f l.
Proof.
  induction l as [|p l IH]; simpl; [done|].
  destruct (f p) eqn:Hp; simpl; [by rewrite Hp, IH|done].
Qed.

Lemma erasedBy_idem (e : Point) (r : Z) (st st' : Stroke.t) :
  erasedBy e r st = Some st' → erasedBy e r st' = Some st'.
Proof.
  unfold erasedBy. case_bool_decide as Ht.
  - intros [= <-]. by rewrite bool_decide_eq_true_2.
  - destruct (List.filter _ (Stroke.points st)) as [|q fp] eqn:Hf; [done|].
    intros [= <-].
    assert (Hff : List.filter (λ p, fartherThan p e r) (q :: fp) = q :: fp).
    { rewrite <- Hf. apply List_filter_idem. }
    unfold Stroke.withPoints. cbn [Stroke.tool Stroke.points].
    rewrite bool_decide_eq_false_2 by done. by rewrite Hff.
Qed.

Lemma omap_erasedBy_idem (e : Point) (r : Z) (ss : list Stroke.t) :
  omap (erasedBy e r) (omap (erasedBy e r) ss) = omap (erasedBy e r) ss.
Proof.
  induction ss as [|st ss IH]; [done|]. csimpl.
  destruct (erasedBy e r st) as [st'|] eqn:He; [|done]. csimpl.
  by rewrite (erasedBy_idem _ _ _ _ He), IH.
Qed.

(** Folding the same [erase] a second time changes nothing: what the first
    fold left is left by the second. *)
Theorem erase_twice_is_once (ss : list Stroke.t) (o : Operation.t) (e : Point) :
  Operation.type o = "erase"%string → Operation.point o = Some e →
  ∃ ss1, applyOperation ss o = Some ss1 ∧ applyOperation ss1 o = Some ss1.
Proof.
  intros Ht Hp. eexists. split; [by apply applyOperation_erase|].
  rewrite (applyOperation_erase _ o e Ht Hp). by rewrite omap_erasedBy_idem.
Qed.

Lemma erase_twice_is_once_witness :
  ∃ ss1,
    applyOperation (getState exampleLog)
      (Operation.withId (300, 4) exampleErase 300) = Some ss1 ∧
    applyOperation ss1 (Operation.withId (300, 4) exampleErase 300) = Some ss1.
Proof.
  apply (erase_twice_is_once (getState exampleLog)
           (Operation.withId (300, 4) exampleErase 300) (mkPoint 5 5)).
  - reflexivity.
  - reflexivity.
Defined.

Lemma fartherThan_mono (p e : Point) (r1 r2 : Z) :
  r1 ≤ r2 → fartherThan p e r2 = true → fartherThan p e r1 = true.
Proof.
  unfold fartherThan. rewrite !orb_true_iff, !Z.ltb_lt. intros Hr [H2|H2].
  - left. lia.
  - destruct (Z.lt_ge_cases r1 0) as [Hneg|Hpos]; [by left|right].
    assert (r1 * r1 ≤ r2 * r2) by nia. lia.
Qed.

Lemma List_filter_mono (f g : Point → bool) (l : list Point) :
  (∀ p, g p = true → f p = true) →
  List.filter g l `sublist_of` List.filter f l.
Proof.
  intros Hfg. induction l as [|p l IH]; simpl; [constructor|].
  destruct (g p) eqn:Hg.
  - rewrite (Hfg p Hg). by apply sublist_skip.
  - destruct (f p); [by apply sublist_cons|done].
Qed.

Lemma erasedBy_mono (e : Point) (r1 r2 : Z) (st : Stroke.t) :
  r1 ≤ r2 →
  from_option Stroke.points [] (erasedBy e r2 st) `sublist_of`
  from_option Stroke.points [] (erasedBy e r1 st).
Proof.
  intros Hr. unfold erasedBy. case_bool_decide; [done|].
  pose proof (List_filter_mono (λ p, fartherThan p e r1) (λ p, fartherThan p e r2)
                (Stroke.points st)) as Hsub.
  specialize (Hsub (λ p, fartherThan_mono p e r1 r2 Hr)).
  destruct (List.filter (λ p, fartherThan p e r2) _) as [|q2 f2];
    destruct (List.filter (λ p, fartherThan p e r1) _) as [|q1 f1]; simpl;
    try done; apply sublist_nil_l.
Qed.

Lemma omap_points (f : Stroke.t → option Stroke.t) (ss : list Stroke.t) :
  concat (Stroke.points <$> omap f ss) =
  concat ((λ st, from_option Stroke.points [] (f st)) <$> ss).
Proof.
  induction ss as [|st ss IH]; [done|]. csimpl.
  destruct (f st); csimpl; by rewrite IH.
Qed.

(** A larger eraser removes at least what a smaller one removes: of two
    [erase] operations at the same point, the points left by the one with
    the larger radius are among the points left by the other, in order. *)
Theorem larger_erase_leaves_less (ss : list Stroke.t) (o1 o2 : Operation.t)
    (e : Point) :
  Operation.type o1 = "erase"%string → Operation.type o2 = "erase"%string →
  Operation.point o1 = Some e → Operation.point o2 = Some e →
  orNum (Operation.radius o1) 20 ≤ orNum (Operation.radius o2) 20 →
  ∃ ss1 ss2,
    applyOperation ss o1 = Some ss1 ∧ applyOperation ss o2 = Some ss2 ∧
    concat (Stroke.points <$> ss2) `sublist_of` concat (Stroke.points <$> ss1).
Proof.
  intros Ht1 Ht2 Hp1 Hp2 Hr. eexists _, _.
  split; [by apply applyOperation_erase|].
  split; [by apply applyOperation_erase|].
  rewrite !omap_points.
  induction ss as [|st ss IH]; [done|]. csimpl.
  apply sublist_app; [by apply erasedBy_mono|done].
Qed.

Lemma larger_erase_leaves_less_witness :
  ∃ ss1 ss2,
    applyOperation (getState exampleLog)
      (Operation.withId (300, 4) exampleErase 300) = Some ss1 ∧
    applyOperation (getState exampleLog)
      (Operation.withId (301, 5)
         (OpData.mk "erase" (Some exampleUser) None None None None
                    (Some (mkPoint 5 5)) None) 301) = Some ss2 ∧
    concat (Stroke.points <$> ss2) `sublist_of` concat (Stroke.points <$> ss1).
Proof.
  apply (larger_erase_leaves_less (getState exampleLog)
           (Operation.withId (300, 4) exampleErase 300)
           (Operation.withId (301, 5)
              (OpData.mk "erase" (Some exampleUser) None None None None
                         (Some (mkPoint 5 5)) None) 301)
           (mkPoint 5 5)).
  - reflexivity.
  - reflexivity.
  - reflexivity.
  - reflexivity.
  - vm_compute. discriminate.
Defined.

(** Taking back one's last operation.  When a user (with a non-empty id)
    logs any operation on a reachable log and undoes right away, the undo
    returns that operation, flagged, and the strokes are what they were
    before it was logged; the operation stays in the history. *)
Theorem undo_cancels_last_add (cs : list Cmd) (s s1 : t) (U : string)
    (d : OpData.t) (oid : OpId) (t1 now : Z) :
  run cs new = Some s → U ≠ ""%string → OpData.userId d = Some U →
  addOperation d t1 s = Some (oid, s1) →
  ∃ s2,
    undo U now s1 =
      Some (Some (Operation.markUndone (Operation.withId oid d t1) U now), s2) ∧
    getState s2 = getState s ∧
    getHistory s2 =
      getHistory s ++ [Operation.markUndone (Operation.withId oid d t1) U now].
Proof.
  intros Hrun HU Hd Ha.
  pose proof (run_inv _ _ _ Inv_new Hrun) as HI.
  destruct (addOperation_inv _ _ _ _ _ HI Ha) as (_ & Hh & _ & Hus & HI1).
  unfold undo. rewrite bool_decide_eq_false_2; last first.
  { rewrite Hus, bool_decide_eq_true_2, length_app by done. simpl. lia. }
  rewrite Hh, scanBack_last; last first.
  { unfold undoable. simpl. rewrite bool_decide_eq_true_2; [done|].
    rewrite Hus, bool_decide_eq_true_2 by done.
    apply elem_of_app. right. by apply list_elem_of_singleton. }
  unfold rebuildState. simpl. rewrite insert_last, replay_snoc.
  rewrite (inv_strokes _ HI). simpl. by eexists.
Qed.

Lemma undo_cancels_last_add_witness :
  ∃ s1 s2,
    addOperation exampleErase 300 exampleLog = Some ((300, 4), s1) ∧
    undo exampleUser 400 s1 =
      Some (Some (Operation.markUndone
                    (Operation.withId (300, 4) exampleErase 300)
                    exampleUser 400), s2) ∧
    getState s2 = getState exampleLog ∧
    getHistory s2 =
      getHistory exampleLog ++
      [Operation.markUndone (Operation.withId (300, 4) exampleErase 300)
                            exampleUser 400].
Proof.
  destruct (addOperation exampleErase 300 exampleLog) as [[oid s1]|] eqn:Ha;
    [|vm_compute in Ha; discriminate].
  assert (Hoid : oid = (300, 4)).
  { vm_compute in Ha. by injection Ha as <- _. }
  subst oid. exists s1.
  destruct (undo_cancels_last_add exampleCmds exampleLog s1 exampleUser
              exampleErase (300, 4) 300 400) as (s2 & Hu & Hs & Hh).
  - reflexivity.
  - discriminate.
  - reflexivity.
  - exact Ha.
  - exists s2. split_and!; done.
Defined.

End EraseAlgebra.

(** * The defaults of the number fields *)

Section Defaults.
Import RoomManager Server.

(** What [addOperation] leaves: the new operation is the last one of the
    history, and the strokes are the fold of that operation. *)
Lemma addOperation_last (d : OpData.t) (now : Z) (s s' : DrawingState.t)
    (oid : OpId) :
  DrawingState.addOperation d now s = Some (oid, s') →
  oid = (now, DrawingState.operationIdCounter s + 1) ∧
  last (DrawingState.getHistory s') = Some (Operation.withId oid d now) ∧
  DrawingState.applyOperation (DrawingState.getState s) (Operation.withId oid d now)
    = Some (DrawingState.getState s').
Proof.
  unfold DrawingState.addOperation.
  destruct (_ <? _); simpl;
    destruct (DrawingState.applyOperation _ _) as [ss'|] eqn:Hf; try done;
    intros [= <- <-]; simpl; by rewrite last_snoc.
Qed.

(** A handler that logs an operation leaves the log that [addOperation]
    returns in the room of the socket. *)
Lemma logOperation_logged (socket : string) (mkOp : User → OpData.t) (now : Z)
    (sv : Server.t) (ss : Session) (oid : OpId) (ds' : DrawingState.t) :
  resolve socket sv = Some ss →
  DrawingState.addOperation (mkOp (Server.user ss)) now (drawingState ss)
    = Some (oid, ds') →
  ∃ sv1, logOperation socket mkOp now sv = Some sv1 ∧
         roomLog (Server.roomId ss) (roomManager sv1) = Some ds'.
Proof.
  intros Hres Ha. unfold logOperation. rewrite Hres, Ha.
  eexists. split; [done|].
  destruct (resolve_room _ _ _ Hres) as (_ & Href & Hd).
  unfold roomLog, getRoomState, deref. simpl. rewrite Href.
  apply list_lookup_insert_eq. apply lookup_lt_is_Some. by eexists.
Qed.

(** The fold of an [erase] reads its radius through [|| 20]. *)
Lemma applyOperation_erase_default (ss : list Stroke.t) (o : Operation.t) :
  Operation.type o = "erase"%string →
  Operation.radius o = Some 0 ∨ Operation.radius o = None →
  DrawingState.applyOperation ss o =
  DrawingState.dropNull <$> DrawingState.mapErase (Operation.point o) 20 ss.
Proof.
  intros Ht Hr. unfold DrawingState.applyOperation. rewrite Ht. simpl.
  by destruct Hr as [-> | ->].
Qed.

(** C10. The defaults of the number fields are taken on [0] as on an absent
    field.  For a connected socket and a radius that is [0] or absent, the
    [erase] handler logs, as the last operation of the room, an [erase]
    with radius [20], and leaves in the room the strokes of the erase fold
    run with radius [20].  For a line width that is [0] or absent, the
    [draw-start] handler logs a [draw] with line width [5] and leaves a new
    stroke of line width [5] that holds the point, and so does the
    [draw-move] handler when the room has no stroke of the payload's id.
    The handlers leave the same server whether the field is [0] or absent.
    The fold itself runs an [erase] operation whose radius is [0] or absent
    with radius [20]. *)
Theorem falsy_defaults_logged (socket genStrokeId : string) (pt : Point)
    (sid tl cl : option string) (now : Z) (sv : Server.t) (ss : Session) :
  resolve socket sv = Some ss →
  Forall (λ st, Stroke.id st ≠ Some genStrokeId)
         (DrawingState.getState (drawingState ss)) →
  Forall (λ st, Stroke.id st ≠ sid) (DrawingState.getState (drawingState ss)) →
  let u := Server.user ss in
  let ds := drawingState ss in
  let oid := (now, DrawingState.operationIdCounter ds + 1) in
  let tool' := Some (orStr tl "brush") in
  let color' := Some (orStr cl (Server.color u)) in
  let logged (res : option Server.t) (op : Operation.t)
             (strokes' : list Stroke.t) :=
    ∃ sv1 ds', res = Some sv1 ∧
      roomLog (Server.roomId ss) (roomManager sv1) = Some ds' ∧
      last (DrawingState.getHistory ds') = Some op ∧
      DrawingState.getState ds' = strokes' in
  (∀ r, r = Some 0 ∨ r = None →
     ∃ rs, DrawingState.mapErase (Some pt) 20 (DrawingState.getState ds) = Some rs ∧
       logged (onErase socket (mkEraseData (Some pt) r) now sv)
              (Operation.mk oid "erase" (Some (Server.id u)) None None None None
                            (Some pt) (Some 20) now false None None)
              (DrawingState.dropNull rs)) ∧
  (∀ w, w = Some 0 ∨ w = None →
     logged (onDrawStart socket (mkDrawData sid tl cl w (Some pt)) now
                         genStrokeId sv)
            (Operation.mk oid "draw" (Some (Server.id u)) (Some genStrokeId)
                          tool' color' (Some 5) (Some pt) None now false None None)
            (DrawingState.getState ds ++
             [Stroke.mk (Some genStrokeId) (Some (Server.id u)) tool' color'
                        (Some 5) [pt]])) ∧
  (∀ w, w = Some 0 ∨ w = None →
     logged (onDrawMove socket (mkDrawData sid tl cl w (Some pt)) now sv)
            (Operation.mk oid "draw" (Some (Server.id u)) sid
                          tool' color' (Some 5) (Some pt) None now false None None)
            (DrawingState.getState ds ++
             [Stroke.mk sid (Some (Server.id u)) tool' color' (Some 5) [pt]])) ∧
  (onErase socket (mkEraseData (Some pt) (Some 0)) now sv
     = onErase socket (mkEraseData (Some pt) None) now sv ∧
   onDrawStart socket (mkDrawData sid tl cl (Some 0) (Some pt)) now genStrokeId sv
     = onDrawStart socket (mkDrawData sid tl cl None (Some pt)) now genStrokeId sv ∧
   onDrawMove socket (mkDrawData sid tl cl (Some 0) (Some pt)) now sv
     = onDrawMove socket (mkDrawData sid tl cl None (Some pt)) now sv) ∧
  (∀ strokes o, Operation.type o = "erase"%string →
     Operation.radius o = Some 0 ∨ Operation.radius o = None →
     DrawingState.applyOperation strokes o =
     DrawingState.dropNull <$> DrawingState.mapErase (Operation.point o) 20 strokes).
Proof.
  intros Hres Hgen Hsid u ds oid tool' color' logged.
  assert (Hdraw : ∀ (mkOp : User → OpData.t) (sid0 : option string),
    mkOp u = OpData.mk "draw" (Some (Server.id u)) sid0 tool' color' (Some 5)
                       (Some pt) None →
    Forall (λ st, Stroke.id st ≠ sid0) (DrawingState.getState ds) →
    logged (logOperation socket mkOp now sv)
      (Operation.mk oid "draw" (Some (Server.id u)) sid0 tool' color' (Some 5)
                    (Some pt) None now false None None)
      (DrawingState.getState ds ++
       [Stroke.mk sid0 (Some (Server.id u)) tool' color' (Some 5) [pt]])).
  { intros mkOp sid0 Hop Hfresh.
    destruct (addOperation_new_stroke (mkOp u) now ds) as (oid1 & ds' & Ha & Hs).
    { by rewrite Hop. }
    { by rewrite Hop. }
    destruct (addOperation_last _ _ _ _ _ Ha) as (-> & Hlast & _).
    destruct (logOperation_logged socket mkOp now sv ss _ ds' Hres Ha)
      as (sv1 & Hl & Hroom).
    exists sv1, ds'. split_and!; [done|done| |].
    - rewrite Hlast, Hop. done.
    - unfold DrawingState.getState. rewrite Hs, Hop. done. }
  split_and!.
  - intros r Hr.
    assert (Hop : eraseOperation u (mkEraseData (Some pt) r) =
                  OpData.mk "erase" (Some (Server.id u)) None None None None
                            (Some pt) (Some 20))
      by (by destruct Hr as [-> | ->]).
    destruct (mapErase_Some pt 20 (DrawingState.getState ds)) as (rs & Hrs & _).
    exists rs. split; [done|].
    pose proof (addOperation_fold (eraseOperation u (mkEraseData (Some pt) r))
                  now ds) as Hadd.
    rewrite Hop in Hadd. unfold DrawingState.applyOperation in Hadd.
    simpl in Hadd. unfold DrawingState.getState in Hrs. rewrite Hrs in Hadd.
    destruct Hadd as (ds' & Ha & Hs). rewrite <- Hop in Ha.
    destruct (addOperation_last _ _ _ _ _ Ha) as (_ & Hlast & _).
    destruct (logOperation_logged socket
                (λ user, eraseOperation user (mkEraseData (Some pt) r))
                now sv ss _ ds' Hres Ha) as (sv1 & Hl & Hroom).
    exists sv1, ds'. split_and!; [done|done| |done].
    rewrite Hlast, Hop. done.
  - intros w Hw. apply (Hdraw (λ user, drawStartOperation user genStrokeId
                                 (mkDrawData sid tl cl w (Some pt)))); [|done].
    by destruct Hw as [-> | ->].
  - intros w Hw. apply (Hdraw (λ user, drawMoveOperation user
                                 (mkDrawData sid tl cl w (Some pt)))); [|done].
    by destruct Hw as [-> | ->].
  - done.
  - done.
  - done.
  - intros strokes o. apply applyOperation_erase_default.
Qed.

Lemma falsy_defaults_logged_witness :
  (∃ sv1 ds',
     onErase "sock1" (mkEraseData (Some (mkPoint 1 2)) (Some 0)) 200 exampleDrawn
       = Some sv1 ∧
     roomLog "default" (roomManager sv1) = Some ds' ∧
     (Operation.radius <$> last (DrawingState.getHistory ds')) = Some (Some 20) ∧
     DrawingState.getState ds' = []) ∧
  (∃ sv1 ds',
     onDrawStart "sock1" (mkDrawData None None None (Some 0) (Some (mkPoint 1 2)))
                 200 "stroke_200_b" exampleDrawn = Some sv1 ∧
     roomLog "default" (roomManager sv1) = Some ds' ∧
     (Operation.lineWidth <$> last (DrawingState.getHistory ds')) = Some (Some 5) ∧
     last (DrawingState.getState ds') =
       Some (Stroke.mk (Some "stroke_200_b"%string) (Some "user_1"%string)
                       (Some "brush"%string) (Some "#FF6B6B"%string) (Some 5)
                       [mkPoint 1 2])).
Proof.
  destruct (resolve "sock1" exampleDrawn) as [ss|] eqn:Hres;
    [|vm_compute in Hres; discriminate].
  assert (Hst : DrawingState.getState (drawingState ss) =
                [Stroke.mk (Some "stroke_100_a"%string) (Some "user_1"%string)
                           (Some "brush"%string) (Some "#FF6B6B"%string) (Some 5)
                           [mkPoint 1 2]])
    by (vm_compute in Hres; injection Hres as <-; reflexivity).
  assert (Hroom : Server.roomId ss = "default"%string)
    by (vm_compute in Hres; injection Hres as <-; reflexivity).
  assert (Hu : Server.user ss = exampleUser1)
    by (vm_compute in Hres; injection Hres as <-; reflexivity).
  destruct (falsy_defaults_logged "sock1" "stroke_200_b" (mkPoint 1 2)
              (Some "client_7"%string) None None 200 exampleDrawn ss Hres)
    as (He & Hd & _).
  - rewrite Hst. repeat constructor. discriminate.
  - rewrite Hst. repeat constructor. discriminate.
  - split.
    + destruct (He (Some 0) (or_introl eq_refl))
        as (rs & Hrs & sv1 & ds' & Hon & Hlog & Hlast & Hstrokes).
      rewrite Hst in Hrs. vm_compute in Hrs. injection Hrs as <-.
      exists sv1, ds'. rewrite Hroom in Hlog. split_and!; try done.
      by rewrite Hlast.
    + destruct (Hd (Some 0) (or_introl eq_refl))
        as (sv1 & ds' & Hon & Hlog & Hlast & Hstrokes).
      exists sv1, ds'. rewrite Hroom in Hlog. split_and!; try done.
      * by rewrite Hlast.
      * rewrite Hstrokes, last_snoc, Hu. reflexivity.
Defined.

End Defaults.
